(** * A shallow embedding of the mafiabot rules engine ([mafia_rust/src/game.rs])

    The engine is generic over the raw player identifier [U: RawPID]; the
    embedding instantiates it with [nat], which is also the type of the
    positional index [Pidx = usize].  Events sent on the outbound channel
    [tx] are collected by a small writer monad [M].  Functions that take
    [&mut] arguments return the updated values. *)

From Stdlib Require Import String List Arith Lia Bool.
Import ListNotations.

Abbreviation Pidx := nat (only parsing).

(** ** Roles and teams ([mod role]) *)

Module Team.
Inductive t := Town | Mafia | Rogue.

Definition eqb (a b : t) : bool :=
  match a, b with
  | Town, Town | Mafia, Mafia | Rogue, Rogue => true
  | _, _ => false
  end.
End Team.

Module Role.
Inductive t :=
| TOWN | COP | DOCTOR | CELEB | MILLER | MASON
| MAFIA | GODFATHER | STRIPPER | GOON | IDIOT | SURVIVOR
| GUARD (u : nat) | AGENT (u : nat).

Definition eq_dec (a b : t) : {a = b} + {a <> b}.
Proof. decide equality; apply Nat.eq_dec. Defined.

Definition team (r : t) : Team.t :=
  match r with
  | TOWN | COP | DOCTOR | CELEB => Team.Town
  | MILLER | MASON => Team.Town
  | MAFIA | GODFATHER | GOON | STRIPPER => Team.Mafia
  | IDIOT | SURVIVOR | GUARD _ | AGENT _ => Team.Rogue
  end.

Definition investigate_mafia (r : t) : bool :=
  match r with
  | GODFATHER => false
  | MILLER => true
  | _ => Team.eqb (team r) Team.Mafia
  end.

Definition has_night_action (r : t) : bool :=
  match r with
  | COP | DOCTOR | STRIPPER => true
  | _ => false
  end.
End Role.

(** ** Game data ([mod game]) *)

Record Player := mkPlayer { raw_pid : nat; name : string; role : Role.t }.

Module Winner.
Inductive t := Team (team : Team.t) | Player (p : Pidx).
End Winner.

Module Ballot.
Inductive t := Player (p : nat) | Abstain.

Definition eqb (a b : t) : bool :=
  match a, b with
  | Player p, Player q => Nat.eqb p q
  | Abstain, Abstain => true
  | _, _ => false
  end.
End Ballot.

Module Actor.
Inductive t := Player (p : nat) | Mafia (p : nat).

Definition eqb (a b : t) : bool :=
  match a, b with
  | Player p, Player q => Nat.eqb p q
  | Mafia p, Mafia q => Nat.eqb p q
  | _, _ => false
  end.

Definition overlaps (self other : t) : bool :=
  match self, other with
  | Player p1, Player p2 => Nat.eqb p1 p2
  | Mafia _, Mafia _ => true
  | _, _ => false
  end.

Definition is_player (self : t) (p : nat) : bool :=
  match self with
  | Player p2 => Nat.eqb p p2
  | _ => false
  end.

Definition is_mafia (self : t) : bool :=
  match self with
  | Mafia _ => true
  | _ => false
  end.
End Actor.

Module Target.
Inductive t := Player (p : nat) | NoTarget | Blocked.
End Target.

Definition Votes := list (Pidx * Ballot.t).
Definition Actions := list (Actor.t * Target.t).
Definition Players := list Player.

Module Phase.
Inductive t :=
| Init
| Day (day_no : nat) (votes : Votes)
| Night (night_no : nat) (actions : Actions)
| End (w : Winner.t).

Definition clear (self : t) : t :=
  match self with
  | Day n _ => Day n []
  | Night n _ => Night n []
  | p => p
  end.
End Phase.

(** ** The command/event protocol ([mod interface]) *)

Module Command.
Inductive t :=
| Vote (voter : nat) (ballot : option Ballot.t)
| Action (actor : Actor.t) (target : option Target.t).
End Command.

Module Event.
Inductive t :=
| Start (players : Players) (phase : Phase.t)
| Day
| Vote (voter : Pidx) (ballot : option Ballot.t) (former : option Ballot.t)
       (threshold : nat) (count : nat)
| Elect (ballot : Ballot.t)
| Night
| Action (actor : Actor.t) (target : option Target.t)
| Dawn
| Strip
| Save
| Investigate
| Kill
| Eliminate (player : Pidx)
| Win
| End
| InvalidCommand.
End Event.

(** ** The outbound channel: a writer monad of events *)

Definition M (A : Type) : Type := (A * list Event.t)%type.

Definition ret {A} (a : A) : M A := (a, []).

Definition bind {A B} (m : M A) (f : A -> M B) : M B :=
  let '(a, l1) := m in
  let '(b, l2) := f a in
  (b, l1 ++ l2).

(** [tx.send(Response { event, src })]; the source is opaque and omitted. *)
Definition send (e : Event.t) : M unit := (tt, [e]).

Notation "x <- m ;; f" := (bind m (fun x => f))
  (at level 61, m at next level, right associativity).
Notation "' p <- m ;; f" := (bind m (fun x => match x with p => f end))
  (at level 61, p pattern, m at next level, right associativity).
Notation "m ;; f" := (bind m (fun _ : unit => f))
  (at level 61, right associativity).

(** ** Vec helpers *)

(** [iter().position(f)] *)
Fixpoint position {A} (f : A -> bool) (l : list A) : option nat :=
  match l with
  | [] => None
  | x :: r => if f x then Some 0 else option_map S (position f r)
  end.

(** [Vec::remove(i)] without its element; every call site passes an index
    obtained from [position] (or a validated [Pidx]), so it is in range. *)
Fixpoint remove_at {A} (i : nat) (l : list A) : list A :=
  match l, i with
  | [], _ => []
  | _ :: r, 0 => r
  | x :: r, S j => x :: remove_at j r
  end.

(** [Vec::last()] *)
Fixpoint last_opt {A} (l : list A) : option A :=
  match l with
  | [] => None
  | [x] => Some x
  | _ :: r => last_opt r
  end.

(** [iter().enumerate()] *)
Definition enumerate {A} (l : list A) : list (nat * A) :=
  combine (seq 0 (length l)) l.

(** [check_player]: the index of the first player with this raw id. *)
Definition check_player (players : Players) (raw : nat) : option Pidx :=
  position (fun p => Nat.eqb p.(raw_pid) raw) players.

(** [get_players_that] *)
Definition get_players_that (players : Players) (f : Pidx * Player -> bool)
  : list (Pidx * Player) :=
  filter f (enumerate players).

(** ** The vote resolver *)

(** [validate_vote] *)
Definition validate_vote (players : Players) (raw_voter : nat)
    (raw_ballot : option Ballot.t) : option (Pidx * option Ballot.t) :=
  match check_player players raw_voter with
  | None => None
  | Some voter =>
      match raw_ballot with
      | Some (Ballot.Player raw_pid) =>
          match check_player players raw_pid with
          | None => None
          | Some p => Some (voter, Some (Ballot.Player p))
          end
      | Some Ballot.Abstain => Some (voter, Some Ballot.Abstain)
      | None => Some (voter, None)
      end
  end.

(** [accept_vote]: returns the updated tally and the former ballot. *)
Definition accept_vote (votes : Votes) (voter : Pidx) (ballot : option Ballot.t)
  : Votes * option Ballot.t :=
  let '(votes1, former) :=
    match position (fun '(v, _) => Nat.eqb v voter) votes with
    | Some i => (remove_at i votes, nth_error votes i)
    | None => (votes, None)
    end in
  let votes2 :=
    match ballot with
    | Some b => votes1 ++ [(voter, b)]
    | None => votes1
    end in
  (votes2, option_map snd former).

(** Number of live ballots equal to [b]. *)
Definition count_ballot (votes : Votes) (b : Ballot.t) : nat :=
  length (filter (fun '(_, b') => Ballot.eqb b' b) votes).

(** [check_elect] *)
Definition check_elect (players : Players) (votes : Votes)
    (former : option Ballot.t) : M (option Ballot.t) :=
  let n_players := length players in
  let threshold := n_players / 2 + 1 in
  let lo_thresh := (n_players + 1) / 2 in
  match last_opt votes with
  | None => ret None
  | Some (last_voter, last_ballot) =>
      let threshold' :=
        match last_ballot with
        | Ballot.Abstain => lo_thresh
        | _ => threshold
        end in
      let count := count_ballot votes last_ballot in
      send (Event.Vote last_voter (Some last_ballot) former threshold' count) ;;
      ret (match last_ballot with
           | Ballot.Player candidate =>
               if threshold' <=? count then Some (Ballot.Player candidate) else None
           | Ballot.Abstain =>
               if lo_thresh <=? count then Some Ballot.Abstain else None
           end)
  end.

(** [handle_vote]: returns the updated tally and the elected ballot, if any. *)
Definition handle_vote (players : Players) (votes : Votes) (raw_voter : nat)
    (raw_ballot : option Ballot.t) : M (Votes * option Ballot.t) :=
  match validate_vote players raw_voter raw_ballot with
  | None => send Event.InvalidCommand ;; ret (votes, None)
  | Some (voter, ballot) =>
      let '(votes', former) := accept_vote votes voter ballot in
      elect <- check_elect players votes' former ;;
      ret (votes', elect)
  end.

(** ** The night-action resolver *)

(** [validate_action] *)
Definition validate_action (players : Players) (raw_actor : Actor.t)
    (raw_target : option Target.t) : option (Actor.t * option Target.t) :=
  let actor :=
    match raw_actor with
    | Actor.Player raw_pid => option_map Actor.Player (check_player players raw_pid)
    | Actor.Mafia raw_pid => option_map Actor.Mafia (check_player players raw_pid)
    end in
  match actor with
  | None => None
  | Some actor =>
      match raw_target with
      | Some (Target.Player raw_pid) =>
          match check_player players raw_pid with
          | None => None
          | Some p => Some (actor, Some (Target.Player p))
          end
      | Some Target.NoTarget => Some (actor, Some Target.NoTarget)
      | None | Some Target.Blocked => Some (actor, None)
      end
  end.

(** [accept_action] (the source leaves the Goon check as a TODO). *)
Definition accept_action (actions : Actions) (actor : Actor.t)
    (target : option Target.t) : M Actions :=
  let actions1 :=
    match position (fun '(a, _) => Actor.overlaps a actor) actions with
    | Some i => remove_at i actions
    | None => actions
    end in
  match target with
  | Some target =>
      send (Event.Action actor (Some target)) ;;
      ret (actions1 ++ [(actor, target)])
  | None => ret actions1
  end.

(** [check_dawn] *)
Definition check_dawn (players : Players) (actions : Actions) : bool :=
  let actors :=
    map (fun '(i, _) => Actor.Player i)
        (filter (fun '(_, p) => Role.has_night_action p.(role)) (enumerate players))
    ++ [Actor.Mafia 0] in
  forallb (fun actor =>
             match actor with
             | Actor.Player _ => existsb (fun '(a, _) => Actor.eqb a actor) actions
             | Actor.Mafia _ => existsb (fun '(a, _) => Actor.is_mafia a) actions
             end) actors.

(** [handle_action]: returns the updated tally and whether dawn begins. *)
Definition handle_action (players : Players) (actions : Actions)
    (raw_actor : Actor.t) (raw_target : option Target.t) : M (Actions * bool) :=
  match validate_action players raw_actor raw_target with
  | None => send Event.InvalidCommand ;; ret (actions, false)
  | Some (actor, target) =>
      actions' <- accept_action actions actor target ;;
      ret (actions', check_dawn players actions')
  end.

(** ** Dawn resolution *)

(** [strip]: blocks every action whose actor is [Actor::Player(stripped)]. *)
Fixpoint strip (actions : Actions) (stripped : Pidx) : M Actions :=
  match actions with
  | [] => ret []
  | (actor, target) :: rest =>
      if Actor.eqb actor (Actor.Player stripped) then
        send Event.Strip ;;
        rest' <- strip rest stripped ;;
        ret ((actor, Target.Blocked) :: rest')
      else
        rest' <- strip rest stripped ;;
        ret ((actor, target) :: rest')
  end.

(** [save]: blocks a Mafia action aimed at [saved]; one [Save] event per
    Mafia action. *)
Fixpoint save (actions : Actions) (saved : Pidx) : M Actions :=
  match actions with
  | [] => ret []
  | (actor, target) :: rest =>
      match actor with
      | Actor.Mafia _ =>
          let target' :=
            match target with
            | Target.Player pid => if Nat.eqb pid saved then Target.Blocked else target
            | _ => target
            end in
          send Event.Save ;;
          rest' <- save rest saved ;;
          ret ((actor, target') :: rest')
      | _ =>
          rest' <- save rest saved ;;
          ret ((actor, target) :: rest')
      end
  end.

(** [investigate]: the verdict is computed but not reported. *)
Definition investigate (cop suspect : Pidx) (players : Players) : M unit :=
  let _is_mafia := option_map (fun p => Role.investigate_mafia p.(role))
                     (nth_error players suspect) in
  send Event.Investigate.

(** [for_each] over [get_players_that] in the writer monad. *)
Fixpoint for_each (xs : list (Pidx * Player)) (f : Actions -> Pidx -> M Actions)
    (actions : Actions) : M Actions :=
  match xs with
  | [] => ret actions
  | (i, _) :: rest => actions' <- f actions i ;; for_each rest f actions'
  end.

Fixpoint for_cops (cops : list (Pidx * Player)) (players : Players)
    (actions : Actions) : M unit :=
  match cops with
  | [] => ret tt
  | (cop, _) :: rest =>
      let suspect :=
        option_map snd (find (fun '(a, _) => Actor.is_player a cop) actions) in
      match suspect with
      | Some (Target.Player suspect) =>
          investigate cop suspect players ;; for_cops rest players actions
      | _ => for_cops rest players actions
      end
  end.

Definition is_role (r : Role.t) (x : Pidx * Player) : bool :=
  if Role.eq_dec (snd x).(role) r then true else false.

(** The Kill stage of [handle_dawn]. *)
Definition kill_stage (actions : Actions) : M (option Pidx) :=
  match find (fun '(a, _) => Actor.is_mafia a) actions with
  | Some (_, Target.Player victim) => send Event.Kill ;; ret (Some victim)
  | _ => ret None
  end.

(** [handle_dawn]: returns the resolved actions and the victim, if any. *)
Definition handle_dawn (players : Players) (actions : Actions)
  : M (Actions * option Pidx) :=
  send Event.Dawn ;;
  actions1 <- for_each (get_players_that players (is_role Role.STRIPPER))
                strip actions ;;
  actions2 <- for_each (get_players_that players (is_role Role.DOCTOR))
                save actions1 ;;
  for_cops (get_players_that players (is_role Role.COP)) players actions2 ;;
  victim <- kill_stage actions2 ;;
  ret (actions2, victim).

(** ** Elimination, win check and phase changes *)

Definition n_mafia (players : Players) : nat :=
  length (filter (fun p => Team.eqb (Role.team p.(role)) Team.Mafia) players).

(** [check_win] *)
Definition check_win (players : Players) : M (option Team.t) :=
  let n_players := length players in
  let n_mafia := n_mafia players in
  let result :=
    if Nat.eqb n_mafia 0 then Some Team.Town
    else if n_players <=? n_mafia * 2 then Some Team.Mafia
    else None in
  match result with
  | Some _ => send Event.Win ;; ret result
  | None => ret result
  end.

(** [eliminate]: returns the new roster and phase. *)
Definition eliminate (players : Players) (phase : Phase.t) (victim : Pidx)
  : M (Players * Phase.t) :=
  send (Event.Eliminate victim) ;;
  let players' := remove_at victim players in
  let phase' := Phase.clear phase in
  w <- check_win players' ;;
  match w with
  | None => ret (players', phase')
  | Some winner => ret (players', Phase.End (Winner.Team winner))
  end.

(** [next_phase]; the [panic!] on a transition into [Init] is unreachable,
    since the first match never produces [Init]. *)
Definition next_phase (players : Players) (phase : Phase.t) : M Phase.t :=
  let phase' :=
    match phase with
    | Phase.Init => Phase.Day 1 []
    | Phase.Day day_no _ => Phase.Night day_no []
    | Phase.Night night_no _ => Phase.Day (night_no + 1) []
    | p => p
    end in
  match phase' with
  | Phase.Day _ _ => send Event.Day ;; ret phase'
  | Phase.Night _ _ => send Event.Night ;; ret phase'
  | Phase.End _ => send Event.End ;; ret phase'
  | Phase.Init => ret phase'
  end.

(** [handle_elect] *)
Definition handle_elect (players : Players) (phase : Phase.t) (ballot : Ballot.t)
  : M (Players * Phase.t) :=
  send (Event.Elect ballot) ;;
  '(players', phase') <-
    match ballot with
    | Ballot.Player elect => eliminate players phase elect
    | Ballot.Abstain => ret (players, phase)
    end ;;
  phase'' <- next_phase players' phase' ;;
  ret (players', phase'').

(** ** The game loop ([game_thread]) *)

Record Game := mkGame { players : Players; phase : Phase.t }.

(** Start of [game_thread]: leave [Init] and announce the roster. *)
Definition game_start (g : Game) : M Game :=
  phase' <- next_phase g.(players) g.(phase) ;;
  send (Event.Start g.(players) phase') ;;
  ret (mkGame g.(players) phase').

(** One iteration of the loop of [game_thread] on a received request.  A
    command of the wrong kind for the phase fails the [if let] and is
    dropped; in [End] the loop breaks, so the state no longer changes. *)
Definition game_step (g : Game) (cmd : Command.t) : M Game :=
  match g.(phase), cmd with
  | Phase.Day day_no votes, Command.Vote raw_voter raw_ballot =>
      '(votes', elect) <- handle_vote g.(players) votes raw_voter raw_ballot ;;
      match elect with
      | None => ret (mkGame g.(players) (Phase.Day day_no votes'))
      | Some ballot =>
          '(players', phase') <-
            handle_elect g.(players) (Phase.Day day_no votes') ballot ;;
          ret (mkGame players' phase')
      end
  | Phase.Night night_no actions, Command.Action raw_actor raw_target =>
      '(actions', ready) <- handle_action g.(players) actions raw_actor raw_target ;;
      if ready then
        '(actions'', victim) <- handle_dawn g.(players) actions' ;;
        '(players', phase') <-
          match victim with
          | None => ret (g.(players), Phase.Night night_no actions'')
          | Some victim => eliminate g.(players) (Phase.Night night_no actions'') victim
          end ;;
        phase'' <- next_phase players' phase' ;;
        ret (mkGame players' phase'')
      else ret (mkGame g.(players) (Phase.Night night_no actions'))
  | Phase.Day _ _, Command.Action _ _ => ret g
  | Phase.Night _ _, Command.Vote _ _ => ret g
  | Phase.End _, _ => ret g
  | Phase.Init, _ => send Event.End ;; ret g
  end.

(** ** Roster construction ([Game::new], [add_player]) *)

(** [ValidationErr] *)
Record ValidationErr := mkValidationErr { msg : string }.

(** [add_player]: returns the updated roster and the [Result]. *)
Definition add_player (players : Players) (phase : Phase.t) (player : Player)
  : Players * (unit + ValidationErr) :=
  match phase with
  | Phase.Init =>
      match check_player players player.(raw_pid) with
      | Some _ => (players, inr (mkValidationErr "Player already exists"%string))
      | None => (players ++ [player], inl tt)
      end
  | _ => (players, inr (mkValidationErr "Can't add player during game"%string))
  end.

(** [Game::new]: the [Result] of each [add_player] is discarded. *)
Definition game_new (input : Players) : Game :=
  fold_left (fun game player =>
               mkGame (fst (add_player game.(players) game.(phase) player)) game.(phase))
            input (mkGame [] Phase.Init).

(** Reference roster for [Game::new]: the input in order, keeping the
    first player of each raw id ([seen]: raw ids kept so far). *)
Fixpoint first_of_each (seen : list nat) (input : Players) : Players :=
  match input with
  | [] => []
  | p :: rest =>
      if in_dec Nat.eq_dec p.(raw_pid) seen then first_of_each seen rest
      else p :: first_of_each (p.(raw_pid) :: seen) rest
  end.

(** ** Sample rosters *)

Definition pl (raw : nat) (r : Role.t) : Player := mkPlayer raw ""%string r.

(** The roster of the [minimal] test: P1 and P2 Town, P3 Mafia. *)
Definition minimal_roster : Players := [pl 1 Role.TOWN; pl 2 Role.TOWN; pl 3 Role.MAFIA].

Example minimal_scenario :
  let '(g0, _) := game_start (mkGame minimal_roster Phase.Init) in
  let '(g1, e1) := game_step g0 (Command.Vote 1 (Some (Ballot.Player 3))) in
  let '(g2, e2) := game_step g1 (Command.Vote 2 (Some (Ballot.Player 3))) in
  e1 = [Event.Vote 0 (Some (Ballot.Player 2)) None 2 1]
  /\ e2 = [Event.Vote 1 (Some (Ballot.Player 2)) None 2 2;
           Event.Elect (Ballot.Player 2); Event.Eliminate 2; Event.Win; Event.End]
  /\ g2.(phase) = Phase.End (Winner.Team Team.Town).
Proof. vm_compute. repeat split. Qed.

(** ** Writer-monad equations *)

Lemma bind_fst {A B} (m : M A) (f : A -> M B) :
  fst (bind m f) = fst (f (fst m)).
Proof. destruct m as [a l]; simpl; destruct (f a); reflexivity. Qed.

Lemma bind_snd {A B} (m : M A) (f : A -> M B) :
  snd (bind m f) = snd m ++ snd (f (fst m)).
Proof. destruct m as [a l]; simpl; destruct (f a); reflexivity. Qed.

Lemma bind_eq {A B} (m : M A) (f : A -> M B) :
  bind m f = (fst (f (fst m)), snd m ++ snd (f (fst m))).
Proof. destruct m as [a l]; simpl; destruct (f a); reflexivity. Qed.

(** ** Win evaluation *)

(** The win rule in the words of the spec (section 4.4): Town iff no Mafia
    is left, Mafia iff [n_mafia >= n_players]. *)
Definition win_by_spec (players : Players) : option Team.t :=
  if Nat.eqb (n_mafia players) 0 then Some Team.Town
  else if length players <=? n_mafia players then Some Team.Mafia
  else None.

(** C1 (counterexample): after an elimination leaves one Town player and
    one Mafia player, the code declares a Mafia victory, although
    [n_mafia = 1 < 2 = n_players], where the claim expects no winner. *)
Lemma check_win_parity_counterexample :
  let survivors := remove_at 0 [pl 1 Role.TOWN; pl 2 Role.TOWN; pl 3 Role.MAFIA] in
  fst (check_win survivors) = Some Team.Mafia
  /\ n_mafia survivors < length survivors
  /\ win_by_spec survivors = None.
Proof. vm_compute. split; [reflexivity | split; [auto | reflexivity]]. Qed.

(** C1 (amended): on the post-elimination roster the win check declares
    Town iff no Mafia-team player is left, Mafia iff some Mafia-team player
    is left and they are at least half of the roster
    ([n_players <= 2 * n_mafia]), and no winner otherwise; [eliminate]
    ends the game with the declared winner, or only clears the phase's
    collection when there is none. *)
Theorem check_win_after_eliminate (ps : Players) (phase : Phase.t) (victim : Pidx) :
  let ps' := remove_at victim ps in
  (fst (check_win ps') = Some Team.Town <-> n_mafia ps' = 0)
  /\ (fst (check_win ps') = Some Team.Mafia
      <-> n_mafia ps' <> 0 /\ length ps' <= 2 * n_mafia ps')
  /\ (fst (check_win ps') = None
      <-> n_mafia ps' <> 0 /\ 2 * n_mafia ps' < length ps')
  /\ fst (eliminate ps phase victim)
     = (ps', match fst (check_win ps') with
             | Some t => Phase.End (Winner.Team t)
             | None => Phase.clear phase
             end).
Proof.
  cbv zeta.
  set (ps' := remove_at victim ps).
  assert (Hw : fst (check_win ps') =
            if Nat.eqb (n_mafia ps') 0 then Some Team.Town
            else if length ps' <=? n_mafia ps' * 2 then Some Team.Mafia else None).
  { unfold check_win.
    destruct (Nat.eqb (n_mafia ps') 0); [reflexivity|].
    destruct (length ps' <=? n_mafia ps' * 2); reflexivity. }
  split; [|split; [|split]];
    try (rewrite Hw; destruct (Nat.eqb_spec (n_mafia ps') 0) as [E|E];
         [|destruct (Nat.leb_spec (length ps') (n_mafia ps' * 2)) as [L|L]];
         split; intros H; try discriminate; try reflexivity; try lia;
         destruct H; lia).
  - unfold eliminate. rewrite bind_fst. simpl fst. fold ps'.
    rewrite bind_fst.
    destruct (fst (check_win ps')); reflexivity.
Qed.

(** ** Runs of the game loop *)

Fixpoint run_steps (g : Game) (cmds : list Command.t) : M Game :=
  match cmds with
  | [] => ret g
  | c :: rest => g' <- game_step g c ;; run_steps g' rest
  end.

(** ** Dawn: Strip and Save *)

Definition strip_roster : Players :=
  [pl 1 Role.STRIPPER; pl 2 Role.DOCTOR; pl 3 Role.TOWN; pl 4 Role.TOWN].

(** C2 (failing input): the Stripper (raw 1) strips the Doctor (raw 2), the
    Doctor protects itself and the Mafia (submitted by the Stripper) targets
    the Doctor.  [strip] blocks the Stripper's own action, the Doctor's
    action keeps its target, [save] blocks the kill, and the night ends
    with nobody eliminated. *)
Theorem stripped_doctor_still_saves :
  let g0 := mkGame strip_roster (Phase.Night 1 []) in
  let '(g1, _) := run_steps g0
       [Command.Action (Actor.Player 1) (Some (Target.Player 2));
        Command.Action (Actor.Player 2) (Some (Target.Player 2))] in
  handle_dawn strip_roster
    [(Actor.Player 0, Target.Player 1); (Actor.Player 1, Target.Player 1);
     (Actor.Mafia 0, Target.Player 1)]
  = (([(Actor.Player 0, Target.Blocked); (Actor.Player 1, Target.Player 1);
       (Actor.Mafia 0, Target.Blocked)], None),
     [Event.Dawn; Event.Strip; Event.Save])
  /\ game_step g1 (Command.Action (Actor.Mafia 1) (Some (Target.Player 2)))
     = (mkGame strip_roster (Phase.Day 2 []),
        [Event.Action (Actor.Mafia 0) (Some (Target.Player 1));
         Event.Dawn; Event.Strip; Event.Save; Event.Day]).
Proof. vm_compute. split; reflexivity. Qed.

(** ** Retraction *)

(** C3 (counterexample): P1 abstains, P2 votes for P3, then P2 retracts.
    The retraction runs the threshold evaluation on the remaining tally and
    emits a [Vote] event for P1's Abstain (threshold 2, count 1); there is
    no [RetractVote] event in the protocol. *)
Lemma retract_runs_threshold_counterexample :
  let g0 := mkGame minimal_roster (Phase.Day 1 []) in
  let '(g2, _) := run_steps g0
       [Command.Vote 1 (Some Ballot.Abstain);
        Command.Vote 2 (Some (Ballot.Player 3))] in
  game_step g2 (Command.Vote 2 None)
  = (mkGame minimal_roster (Phase.Day 1 [(0, Ballot.Abstain)]),
     [Event.Vote 0 (Some Ballot.Abstain) (Some (Ballot.Player 2)) 2 1]).
Proof. vm_compute. reflexivity. Qed.

(** ** Acceptance of night actions *)

Definition goon_roster : Players := [pl 1 Role.GOON; pl 2 Role.TOWN; pl 3 Role.TOWN].

(** C4 (counterexample): a Goon (raw 1) submits a Mafia action on raw 2.
    The target is stored as submitted, dawn follows, and the Goon's action
    kills the victim, after which the Mafia has parity and wins. *)
Lemma goon_action_not_blocked_counterexample :
  fst (handle_action goon_roster [] (Actor.Mafia 1) (Some (Target.Player 2)))
  = ([(Actor.Mafia 0, Target.Player 1)], true)
  /\ game_step (mkGame goon_roster (Phase.Night 1 []))
       (Command.Action (Actor.Mafia 1) (Some (Target.Player 2)))
     = (mkGame [pl 1 Role.GOON; pl 3 Role.TOWN] (Phase.End (Winner.Team Team.Mafia)),
        [Event.Action (Actor.Mafia 0) (Some (Target.Player 1)); Event.Dawn;
         Event.Kill; Event.Eliminate 1; Event.Win; Event.End]).
Proof. vm_compute. split; reflexivity. Qed.

Definition cop_roster : Players := [pl 1 Role.TOWN; pl 2 Role.COP; pl 3 Role.MAFIA].

(** C5 (counterexample): a Town player (raw 1, no night action) submits a
    Player action, and the same Town player submits a Mafia action; both are
    accepted and stored, with an [Action] event and no [InvalidCommand]. *)
Lemma role_unchecked_counterexample :
  handle_action cop_roster [] (Actor.Player 1) (Some (Target.Player 3))
  = (([(Actor.Player 0, Target.Player 2)], false),
     [Event.Action (Actor.Player 0) (Some (Target.Player 2))])
  /\ handle_action cop_roster [] (Actor.Mafia 1) (Some (Target.Player 3))
  = (([(Actor.Mafia 0, Target.Player 2)], false),
     [Event.Action (Actor.Mafia 0) (Some (Target.Player 2))]).
Proof. vm_compute. split; reflexivity. Qed.

(** ** Kill stage *)

Definition mafia_roster : Players := [pl 1 Role.MAFIA; pl 2 Role.TOWN; pl 3 Role.TOWN].

(** C7 (counterexample): the only action is a Mafia action with [NoTarget].
    Dawn emits [Dawn] and nothing after it: no event reports that nobody
    was killed. *)
Lemma no_kill_event_counterexample :
  handle_dawn mafia_roster [(Actor.Mafia 0, Target.NoTarget)]
  = (([(Actor.Mafia 0, Target.NoTarget)], None), [Event.Dawn]).
Proof. vm_compute. reflexivity. Qed.

(** C10 (counterexample): a retraction ([None] target) from an unknown raw
    id fails validation: one [InvalidCommand], the tally is unchanged. *)
Lemma retract_unknown_actor_counterexample :
  handle_action minimal_roster [(Actor.Player 0, Target.NoTarget)] (Actor.Player 9) None
  = (([(Actor.Player 0, Target.NoTarget)], false), [Event.InvalidCommand]).
Proof. vm_compute. reflexivity. Qed.

(** ** Lemmas on the Vec helpers *)

Section VecLemmas.
Context {A : Type}.
Implicit Types (f : A -> bool) (l : list A).

Lemma position_some f l i :
  position f l = Some i ->
  exists l1 x l2, l = l1 ++ x :: l2 /\ length l1 = i /\ f x = true
                  /\ forallb (fun y => negb (f y)) l1 = true
                  /\ remove_at i l = l1 ++ l2 /\ nth_error l i = Some x.
Proof.
  revert i; induction l as [|y l IH]; intros i H; simpl in H; [discriminate|].
  destruct (f y) eqn:Fy.
  - injection H as <-. exists [], y, l. simpl. repeat split; auto.
  - destruct (position f l) as [j|] eqn:Hp; simpl in H; [|discriminate].
    injection H as <-.
    destruct (IH j eq_refl) as (l1 & x & l2 & -> & <- & Fx & Hn & Hr & Hi).
    exists (y :: l1), x, l2. simpl. rewrite Fy, Hn, Hr. simpl.
    repeat split; auto.
Qed.

Lemma position_none f l :
  position f l = None -> forall x, In x l -> f x = false.
Proof.
  induction l as [|y l IH]; simpl; [tauto|].
  destruct (f y) eqn:Fy; [discriminate|].
  destruct (position f l); [discriminate|].
  intros _ x [<-|Hx]; auto.
Qed.

Lemma last_opt_app l x : last_opt (l ++ [x]) = Some x.
Proof.
  induction l as [|y l IH]; [reflexivity|].
  simpl. rewrite IH. destruct (l ++ [x]) eqn:E; [destruct l; discriminate|reflexivity].
Qed.

Lemma last_opt_in l x : last_opt l = Some x -> In x l.
Proof.
  induction l as [|y l IH]; simpl; [discriminate|].
  destruct l as [|z l]; [intros [= <-]; auto|]. intros H; right; auto.
Qed.
End VecLemmas.

Lemma count_ballot_app (l1 l2 : Votes) b :
  count_ballot (l1 ++ l2) b = count_ballot l1 b + count_ballot l2 b.
Proof. unfold count_ballot. rewrite filter_app, length_app. reflexivity. Qed.

(** ** Vote evaluation *)

(** The threshold a ballot must reach with [n] players on the roster. *)
Definition vote_threshold (n : nat) (b : Ballot.t) : nat :=
  match b with
  | Ballot.Player _ => n / 2 + 1
  | Ballot.Abstain => (n + 1) / 2
  end.

Lemma check_elect_eq players votes former :
  check_elect players votes former =
  match last_opt votes with
  | None => (None, [])
  | Some (lv, lb) =>
      let thr := vote_threshold (length players) lb in
      let count := count_ballot votes lb in
      (if thr <=? count then Some lb else None,
       [Event.Vote lv (Some lb) former thr count])
  end.
Proof.
  unfold check_elect. destruct (last_opt votes) as [[lv [c|]]|]; reflexivity.
Qed.

Lemma accept_vote_eq votes voter ballot :
  accept_vote votes voter ballot =
  match position (fun '(v, _) => Nat.eqb v voter) votes with
  | Some i =>
      (remove_at i votes ++ match ballot with Some b => [(voter, b)] | None => [] end,
       option_map snd (nth_error votes i))
  | None => (votes ++ match ballot with Some b => [(voter, b)] | None => [] end, None)
  end.
Proof.
  unfold accept_vote.
  destruct (position (fun '(v, _) => Nat.eqb v voter) votes);
    destruct ballot; simpl; rewrite ?app_nil_r; reflexivity.
Qed.

(** C6: after an accepted cast of ballot [b] by [voter], evaluation looks
    only at that (latest) ballot: one [Vote] event reports its live count
    and its threshold ([N/2 + 1] for a player, [(N+1)/2] for Abstain), and
    an election of [b] results iff the count reaches the threshold. *)
Theorem cast_vote_elects_at_threshold players votes raw_voter raw_ballot voter b
  (Hv : validate_vote players raw_voter raw_ballot = Some (voter, Some b)) :
  let '((votes', elect), evs) := handle_vote players votes raw_voter raw_ballot in
  let thr := vote_threshold (length players) b in
  let count := count_ballot votes' b in
  votes' = fst (accept_vote votes voter (Some b))
  /\ last_opt votes' = Some (voter, b)
  /\ evs = [Event.Vote voter (Some b) (snd (accept_vote votes voter (Some b))) thr count]
  /\ elect = (if thr <=? count then Some b else None)
  /\ thr = match b with
           | Ballot.Player _ => length players / 2 + 1
           | Ballot.Abstain => (length players + 1) / 2
           end.
Proof.
  unfold handle_vote. rewrite Hv.
  destruct (accept_vote votes voter (Some b)) as [votes' former] eqn:Ha.
  assert (Hl : last_opt votes' = Some (voter, b)).
  { rewrite accept_vote_eq in Ha.
    destruct (position (fun '(v, _) => Nat.eqb v voter) votes);
      injection Ha as <- _; apply last_opt_app. }
  rewrite bind_eq, check_elect_eq, Hl. simpl.
  repeat split; try exact Hl; destruct b; reflexivity.
Qed.

Lemma cast_vote_elects_at_threshold_witness :
  validate_vote minimal_roster 1 (Some (Ballot.Player 3)) = Some (0, Some (Ballot.Player 2))
  /\ (let '((votes', elect), evs) :=
        handle_vote minimal_roster [(1, Ballot.Player 2)] 1 (Some (Ballot.Player 3)) in
      let thr := vote_threshold (length minimal_roster) (Ballot.Player 2) in
      let count := count_ballot votes' (Ballot.Player 2) in
      votes' = fst (accept_vote [(1, Ballot.Player 2)] 0 (Some (Ballot.Player 2)))
      /\ last_opt votes' = Some (0, Ballot.Player 2)
      /\ evs = [Event.Vote 0 (Some (Ballot.Player 2))
                 (snd (accept_vote [(1, Ballot.Player 2)] 0 (Some (Ballot.Player 2))))
                 thr count]
      /\ elect = (if thr <=? count then Some (Ballot.Player 2) else None)
      /\ thr = length minimal_roster / 2 + 1).
Proof.
  split; [reflexivity|].
  exact (cast_vote_elects_at_threshold minimal_roster [(1, Ballot.Player 2)] 1
           (Some (Ballot.Player 3)) 0 (Ballot.Player 2) eq_refl).
Defined.

Lemma handle_vote_valid players votes raw_voter raw_ballot voter ballot :
  validate_vote players raw_voter raw_ballot = Some (voter, ballot) ->
  handle_vote players votes raw_voter raw_ballot =
  let '(votes', former) := accept_vote votes voter ballot in
  ((votes', fst (check_elect players votes' former)), snd (check_elect players votes' former)).
Proof.
  intros Hv. unfold handle_vote. rewrite Hv.
  destruct (accept_vote votes voter ballot) as [votes' former].
  rewrite bind_eq. simpl. rewrite app_nil_r. reflexivity.
Qed.

Lemma check_elect_reaches players votes former b :
  fst (check_elect players votes former) = Some b ->
  vote_threshold (length players) b <= count_ballot votes b.
Proof.
  rewrite check_elect_eq. destruct (last_opt votes) as [[lv lb]|]; simpl; [|discriminate].
  destruct (Nat.leb_spec (vote_threshold (length players) lb) (count_ballot votes lb));
    intros E; [injection E as <-; assumption | discriminate].
Qed.

(** C3 (amended): a retraction by a known voter removes the voter's prior
    ballot (if any) without adding one, and then the same evaluation as for
    a cast vote runs on the remaining tally: nothing happens if the tally
    is empty; otherwise one [Vote] event is emitted for the last remaining
    ballot (with the retracted ballot as [former]) and that ballot is
    elected iff its live count reaches its threshold.  A ballot elected
    this way had already reached its threshold before the retraction. *)
Theorem retract_vote_reevaluates players votes raw_voter voter
  (Hv : check_player players raw_voter = Some voter) :
  let '((votes', elect), evs) := handle_vote players votes raw_voter None in
  let former := snd (accept_vote votes voter None) in
  votes' = fst (accept_vote votes voter None)
  /\ length votes' =
     length votes - (if existsb (fun '(v, _) => Nat.eqb v voter) votes then 1 else 0)
  /\ (forall x, In x votes' -> In x votes)
  /\ (NoDup (map fst votes) -> ~ In voter (map fst votes'))
  /\ match last_opt votes' with
     | None => evs = [] /\ elect = None
     | Some (lv, lb) =>
         evs = [Event.Vote lv (Some lb) former (vote_threshold (length players) lb)
                  (count_ballot votes' lb)]
         /\ elect = (if vote_threshold (length players) lb <=? count_ballot votes' lb
                     then Some lb else None)
     end
  /\ (forall b, elect = Some b -> vote_threshold (length players) b <= count_ballot votes b).
Proof.
  assert (Hval : validate_vote players raw_voter None = Some (voter, None)).
  { unfold validate_vote. rewrite Hv. reflexivity. }
  rewrite (handle_vote_valid _ votes _ _ _ _ Hval).
  destruct (accept_vote votes voter None) as [votes' former] eqn:Ha.
  simpl fst; simpl snd.
  assert (Hrem : (forall x, In x votes' -> In x votes)
                 /\ (forall b, count_ballot votes' b <= count_ballot votes b)
                 /\ length votes' = length votes
                      - (if existsb (fun '(v, _) => Nat.eqb v voter) votes then 1 else 0)
                 /\ (NoDup (map fst votes) -> ~ In voter (map fst votes'))).
  { rewrite accept_vote_eq in Ha.
    destruct (position (fun '(v, _) => Nat.eqb v voter) votes) as [i|] eqn:P.
    - injection Ha as <- _. rewrite app_nil_r.
      destruct (position_some _ _ _ P) as (l1 & [v b0] & l2 & -> & _ & Fx & _ & Hr & _).
      apply Nat.eqb_eq in Fx; subst v. rewrite Hr.
      rewrite existsb_app. simpl. rewrite Nat.eqb_refl, orb_true_r.
      repeat split.
      + intros x Hx. apply in_app_iff in Hx. apply in_app_iff. simpl. tauto.
      + intros b. rewrite !count_ballot_app. change ((voter, b0) :: l2) with ([(voter, b0)] ++ l2).
        rewrite count_ballot_app. lia.
      + rewrite !length_app. simpl. lia.
      + intros Hnd. rewrite map_app in *. simpl in Hnd. apply NoDup_remove_2. exact Hnd.
    - injection Ha as <- _. rewrite app_nil_r.
      assert (Hno := position_none _ _ P).
      replace (existsb (fun '(v, _) => Nat.eqb v voter) votes) with false.
      2:{ symmetry. apply Bool.not_true_iff_false. intros Hex.
          apply existsb_exists in Hex. destruct Hex as [x [Hx Fx]].
          rewrite (Hno x Hx) in Fx. discriminate. }
      repeat split; auto; try lia.
      intros _ Hin. apply in_map_iff in Hin. destruct Hin as [[v b0] [Hv0 Hin]].
      simpl in Hv0; subst v. specialize (Hno _ Hin). simpl in Hno.
      rewrite Nat.eqb_refl in Hno. discriminate. }
  destruct Hrem as (Hincl & Hcount & Hlen & Hnd).
  repeat split; auto.
  - rewrite check_elect_eq. destruct (last_opt votes') as [[lv lb]|]; simpl; auto.
  - intros b Hb. apply check_elect_reaches in Hb. specialize (Hcount b). lia.
Qed.

Lemma retract_vote_reevaluates_witness :
  check_player minimal_roster 2 = Some 1
  /\ (let votes := [(0, Ballot.Abstain); (1, Ballot.Player 2)] in
      let '((votes', elect), evs) := handle_vote minimal_roster votes 2 None in
      let former := snd (accept_vote votes 1 None) in
      votes' = fst (accept_vote votes 1 None)
      /\ length votes' =
         length votes - (if existsb (fun '(v, _) => Nat.eqb v 1) votes then 1 else 0)
      /\ (forall x, In x votes' -> In x votes)
      /\ (NoDup (map fst votes) -> ~ In 1 (map fst votes'))
      /\ match last_opt votes' with
         | None => evs = [] /\ elect = None
         | Some (lv, lb) =>
             evs = [Event.Vote lv (Some lb) former
                      (vote_threshold (length minimal_roster) lb) (count_ballot votes' lb)]
             /\ elect = (if vote_threshold (length minimal_roster) lb <=? count_ballot votes' lb
                         then Some lb else None)
         end
      /\ (forall b, elect = Some b ->
            vote_threshold (length minimal_roster) b <= count_ballot votes b)).
Proof.
  split; [reflexivity|].
  exact (retract_vote_reevaluates minimal_roster [(0, Ballot.Abstain); (1, Ballot.Player 2)]
           2 1 eq_refl).
Defined.

(** ** Validation and acceptance of night actions *)

(** The raw id a submission is made under. *)
Definition actor_raw (a : Actor.t) : nat :=
  match a with
  | Actor.Player p | Actor.Mafia p => p
  end.

Lemma accept_action_eq actions actor target :
  accept_action actions actor target =
  let actions1 :=
    match position (fun '(a, _) => Actor.overlaps a actor) actions with
    | Some i => remove_at i actions
    | None => actions
    end in
  match target with
  | Some t => (actions1 ++ [(actor, t)], [Event.Action actor (Some t)])
  | None => (actions1, [])
  end.
Proof. unfold accept_action. destruct target; reflexivity. Qed.

Lemma handle_action_valid players actions raw_actor raw_target actor target :
  validate_action players raw_actor raw_target = Some (actor, target) ->
  handle_action players actions raw_actor raw_target =
  ((fst (accept_action actions actor target),
    check_dawn players (fst (accept_action actions actor target))),
   snd (accept_action actions actor target)).
Proof.
  intros Hv. unfold handle_action. rewrite Hv, bind_eq. simpl. rewrite app_nil_r. reflexivity.
Qed.

Lemma remove_first_incl {A} (f : A -> bool) (l : list A) x :
  In x (match position f l with Some i => remove_at i l | None => l end) -> In x l.
Proof.
  destruct (position f l) as [i|] eqn:P; [|auto].
  destruct (position_some _ _ _ P) as (l1 & y & l2 & -> & _ & _ & _ & Hr & _).
  rewrite Hr. rewrite !in_app_iff. simpl. tauto.
Qed.

(** C4 (amended): acceptance makes no role check.  Whenever the actor and
    target ids of a submission resolve, the submitted target (as a roster
    index) is stored unchanged as the newest tally entry and announced by an
    [Action] event, whatever the submitter's role; validation never yields
    [Blocked].  So a Goon's Mafia action on a player is stored as a kill. *)
Theorem accept_stores_submitted_target players actions raw_actor raw_target actor t
  (Hv : validate_action players raw_actor raw_target = Some (actor, Some t)) :
  t <> Target.Blocked
  /\ (exists kept, fst (fst (handle_action players actions raw_actor raw_target))
                   = kept ++ [(actor, t)]
                   /\ forall x, In x kept -> In x actions)
  /\ snd (handle_action players actions raw_actor raw_target)
     = [Event.Action actor (Some t)].
Proof.
  rewrite (handle_action_valid _ _ _ _ _ _ Hv), accept_action_eq. simpl.
  split; [|split].
  - unfold validate_action in Hv.
    destruct raw_actor as [r|r]; destruct (check_player players r); simpl in Hv;
      try discriminate;
      destruct raw_target as [[q| |]|]; try discriminate;
      try (destruct (check_player players q); discriminate || injection Hv as _ <-);
      try (injection Hv as _ <-); discriminate.
  - eexists; split; [reflexivity|]. apply remove_first_incl.
  - reflexivity.
Qed.

Lemma accept_stores_submitted_target_witness :
  validate_action goon_roster (Actor.Mafia 1) (Some (Target.Player 2))
    = Some (Actor.Mafia 0, Some (Target.Player 1))
  /\ Target.Player 1 <> Target.Blocked
  /\ (exists kept, fst (fst (handle_action goon_roster [] (Actor.Mafia 1)
                                (Some (Target.Player 2))))
                   = kept ++ [(Actor.Mafia 0, Target.Player 1)]
                   /\ forall x, In x kept -> In x [])
  /\ snd (handle_action goon_roster [] (Actor.Mafia 1) (Some (Target.Player 2)))
     = [Event.Action (Actor.Mafia 0) (Some (Target.Player 1))].
Proof.
  split; [reflexivity|].
  exact (accept_stores_submitted_target goon_roster [] (Actor.Mafia 1)
           (Some (Target.Player 2)) (Actor.Mafia 0) (Target.Player 1) eq_refl).
Defined.

(** C5 (amended): validation of a night action fails exactly when the
    submitter's raw id, or the raw id of a player target, is not on the
    roster; roles and teams are not checked.  A failing submission yields
    exactly one [InvalidCommand] event, leaves the tally unchanged and
    does not start dawn; an accepted one yields no [InvalidCommand]. *)
Theorem action_validation_fails_iff players actions raw_actor raw_target :
  (validate_action players raw_actor raw_target = None
   <-> check_player players (actor_raw raw_actor) = None
       \/ (exists r, raw_target = Some (Target.Player r) /\ check_player players r = None))
  /\ (validate_action players raw_actor raw_target = None ->
      handle_action players actions raw_actor raw_target
      = ((actions, false), [Event.InvalidCommand]))
  /\ (validate_action players raw_actor raw_target <> None ->
      ~ In Event.InvalidCommand (snd (handle_action players actions raw_actor raw_target))).
Proof.
  split; [|split].
  - unfold validate_action.
    destruct raw_actor as [r|r]; simpl; destruct (check_player players r) eqn:Cr; simpl;
      try (split; intros _; [left|]; reflexivity);
      destruct raw_target as [[q| |]|];
      try (destruct (check_player players q) eqn:Cq);
      split; intros H; try discriminate; try reflexivity;
      try (right; exists q; split; [reflexivity | assumption]);
      destruct H as [H|(q' & Hq & Cq')]; try discriminate;
      injection Hq as <-; congruence.
  - intros H. unfold handle_action. rewrite H. reflexivity.
  - intros H. destruct (validate_action players raw_actor raw_target) as [[a t]|] eqn:Hv;
      [|contradiction].
    rewrite (handle_action_valid _ _ _ _ _ _ Hv), accept_action_eq. simpl.
    destruct t; simpl; intuition discriminate.
Qed.

(** ** Events of the dawn stages *)

Arguments bind : simpl never.

Lemma strip_events actions s e :
  In e (snd (strip actions s)) -> e = Event.Strip.
Proof.
  induction actions as [|[a t] rest IH]; simpl; [tauto|].
  destruct (Actor.eqb a (Actor.Player s)); rewrite !bind_snd; simpl;
    rewrite ?bind_snd; simpl; rewrite ?app_nil_r; intros H;
    [destruct H as [H|H]; [auto|] |]; auto.
Qed.

Lemma save_events actions s e :
  In e (snd (save actions s)) -> e = Event.Save.
Proof.
  induction actions as [|[a t] rest IH]; simpl; [tauto|].
  destruct a; rewrite !bind_snd; simpl; rewrite ?bind_snd; simpl;
    rewrite ?app_nil_r; intros H; [|destruct H as [H|H]; [auto|]]; auto.
Qed.

Lemma for_each_events (P : Event.t -> Prop) xs f actions :
  (forall a i e, In e (snd (f a i)) -> P e) ->
  forall e, In e (snd (for_each xs f actions)) -> P e.
Proof.
  intros Hf. revert actions.
  induction xs as [|[i p] xs IH]; simpl; intros actions e; [tauto|].
  rewrite bind_snd. intros H. apply in_app_iff in H. destruct H as [H|H]; eauto.
Qed.

Lemma for_cops_events cops players actions e :
  In e (snd (for_cops cops players actions)) -> e = Event.Investigate.
Proof.
  induction cops as [|[c p] cops IH]; simpl; [tauto|].
  destruct (option_map snd _) as [[q| |]|]; auto.
  unfold investigate. rewrite bind_snd. simpl. intros [H|H]; auto.
Qed.

Lemma kill_stage_eq actions :
  kill_stage actions =
  match find (fun '(a, _) => Actor.is_mafia a) actions with
  | Some (_, Target.Player v) => (Some v, [Event.Kill])
  | _ => (None, [])
  end.
Proof.
  unfold kill_stage. destruct (find _ actions) as [[a [v| |]]|]; reflexivity.
Qed.

Lemma handle_dawn_eq players actions :
  handle_dawn players actions =
  let '(a1, e1) := for_each (get_players_that players (is_role Role.STRIPPER)) strip actions in
  let '(a2, e2) := for_each (get_players_that players (is_role Role.DOCTOR)) save a1 in
  let e3 := snd (for_cops (get_players_that players (is_role Role.COP)) players a2) in
  let '(v, e4) := kill_stage a2 in
  ((a2, v), Event.Dawn :: e1 ++ e2 ++ e3 ++ e4).
Proof.
  unfold handle_dawn, bind. simpl.
  destruct (for_each _ strip actions) as [a1 e1].
  destruct (for_each _ save a1) as [a2 e2].
  destruct (for_cops _ players a2) as [u e3].
  destruct (kill_stage a2) as [v e4]. simpl. rewrite !app_nil_r. reflexivity.
Qed.

Lemma eliminate_eq ps ph v :
  eliminate ps ph v =
  let ps' := remove_at v ps in
  let '(w, ew) := check_win ps' in
  ((ps', match w with
         | None => Phase.clear ph
         | Some t => Phase.End (Winner.Team t)
         end), Event.Eliminate v :: ew).
Proof.
  unfold eliminate, bind. simpl.
  destruct (check_win (remove_at v ps)) as [[t|] ew]; simpl; rewrite ?app_nil_r; reflexivity.
Qed.

Lemma handle_action_events players actions ra rt e :
  In e (snd (handle_action players actions ra rt)) ->
  e = Event.InvalidCommand \/ exists a t, e = Event.Action a t.
Proof.
  destruct (validate_action players ra rt) as [[a t]|] eqn:Hv.
  - rewrite (handle_action_valid _ actions _ _ _ _ Hv), accept_action_eq. simpl.
    destruct t as [t|]; simpl; [intros [<-|[]]; right; eauto|intros []].
  - unfold handle_action. rewrite Hv. simpl. intros [<-|[]]. left; reflexivity.
Qed.

(** The events of dawn before its Kill stage. *)
Lemma dawn_pre_events players actions :
  exists pre,
    (forall e, In e pre -> e = Event.Strip \/ e = Event.Save \/ e = Event.Investigate)
    /\ snd (handle_dawn players actions)
       = Event.Dawn :: pre ++ snd (kill_stage (fst (fst (handle_dawn players actions)))).
Proof.
  rewrite handle_dawn_eq.
  destruct (for_each _ strip actions) as [a1 e1] eqn:E1.
  destruct (for_each _ save a1) as [a2 e2] eqn:E2.
  set (e3 := snd (for_cops (get_players_that players (is_role Role.COP)) players a2)).
  destruct (kill_stage a2) as [v e4] eqn:E4. simpl.
  exists (e1 ++ e2 ++ e3). split.
  - intros e H. rewrite !in_app_iff in H. destruct H as [H|[H|H]].
    + left. assert (Hs := for_each_events (fun e => e = Event.Strip)
                  (get_players_that players (is_role Role.STRIPPER)) strip actions
                  (fun a i e => strip_events a i e) e).
      rewrite E1 in Hs. exact (Hs H).
    + right; left. assert (Hs := for_each_events (fun e => e = Event.Save)
                  (get_players_that players (is_role Role.DOCTOR)) save a1
                  (fun a i e => save_events a i e) e).
      rewrite E2 in Hs. exact (Hs H).
    + right; right. apply for_cops_events in H. exact H.
  - rewrite E4. simpl. rewrite !app_assoc. reflexivity.
Qed.

(** C7 (amended): the Kill stage looks at the first Mafia action of the
    tally resolved by Strip and Save.  The events of dawn are [Dawn], then
    only [Strip], [Save] and [Investigate] events, then those of the Kill
    stage.  If the first Mafia action targets [Player v], the Kill stage
    emits one [Kill] event, which carries no killer or victim, and dawn
    returns [v]; the game loop then eliminates [v] (an [Eliminate v] event,
    [v] removed from the roster).  Otherwise the Kill stage emits no event
    and dawn returns no victim; the game loop then keeps the roster, emits
    no [Eliminate] event and opens the next day: there is no event
    reporting that nobody died. *)
Theorem kill_stage_kills_first_mafia_target :
  (forall players actions,
     let '((acts, victim), evs) := handle_dawn players actions in
     exists pre,
       (forall e, In e pre -> e = Event.Strip \/ e = Event.Save \/ e = Event.Investigate)
       /\ match find (fun '(a, _) => Actor.is_mafia a) acts with
          | Some (_, Target.Player v) =>
              victim = Some v /\ snd (kill_stage acts) = [Event.Kill]
              /\ evs = Event.Dawn :: pre ++ [Event.Kill]
          | _ =>
              victim = None /\ snd (kill_stage acts) = []
              /\ evs = Event.Dawn :: pre
          end)
  /\ (forall g n acts ra rt acts' evs1 acts'' v evs2,
        g.(phase) = Phase.Night n acts ->
        handle_action g.(players) acts ra rt = ((acts', true), evs1) ->
        handle_dawn g.(players) acts' = ((acts'', Some v), evs2) ->
        (fst (game_step g (Command.Action ra rt))).(players) = remove_at v g.(players)
        /\ In (Event.Eliminate v) (snd (game_step g (Command.Action ra rt))))
  /\ (forall g n acts ra rt acts' evs1 acts'' evs2,
        g.(phase) = Phase.Night n acts ->
        handle_action g.(players) acts ra rt = ((acts', true), evs1) ->
        handle_dawn g.(players) acts' = ((acts'', None), evs2) ->
        game_step g (Command.Action ra rt)
        = (mkGame g.(players) (Phase.Day (n + 1) []), evs1 ++ evs2 ++ [Event.Day])
        /\ (forall w, ~ In (Event.Eliminate w) (snd (game_step g (Command.Action ra rt))))).
Proof.
  assert (P1 : forall players actions,
     let '((acts, victim), evs) := handle_dawn players actions in
     exists pre,
       (forall e, In e pre -> e = Event.Strip \/ e = Event.Save \/ e = Event.Investigate)
       /\ match find (fun '(a, _) => Actor.is_mafia a) acts with
          | Some (_, Target.Player v) =>
              victim = Some v /\ snd (kill_stage acts) = [Event.Kill]
              /\ evs = Event.Dawn :: pre ++ [Event.Kill]
          | _ =>
              victim = None /\ snd (kill_stage acts) = []
              /\ evs = Event.Dawn :: pre
          end).
  { intros players actions.
    destruct (dawn_pre_events players actions) as [pre [Hpre Hev]].
    assert (Hv : snd (fst (handle_dawn players actions))
                 = fst (kill_stage (fst (fst (handle_dawn players actions))))).
    { rewrite handle_dawn_eq.
      destruct (for_each _ strip actions) as [a1 e1]. simpl.
      destruct (for_each _ save a1) as [a2 e2].
      destruct (kill_stage a2) as [v e4] eqn:E4. simpl. rewrite E4. reflexivity. }
    destruct (handle_dawn players actions) as [[acts victim] evs]. simpl in Hev, Hv.
    exists pre. split; [exact Hpre|].
    rewrite kill_stage_eq in Hev, Hv |- *.
    destruct (find (fun '(a, _) => Actor.is_mafia a) acts) as [[a [w| |]]|];
      simpl in Hev, Hv; rewrite ?app_nil_r in Hev; auto. }
  split; [exact P1|split].
  - intros [ps ph] n acts ra rt acts' evs1 acts'' v evs2 Hph H1 H2.
    simpl in *. subst ph.
    unfold game_step, bind. simpl. rewrite H1. simpl. rewrite H2. simpl.
    rewrite eliminate_eq. simpl.
    destruct (check_win (remove_at v ps)) as [w ew]. simpl.
    destruct (next_phase _ _) as [ph'' en]. simpl.
    split; [reflexivity|].
    rewrite !in_app_iff. simpl. tauto.
  - intros [ps ph] n acts ra rt acts' evs1 acts'' evs2 Hph H1 H2.
    simpl in *. subst ph.
    assert (Hs : game_step (mkGame ps (Phase.Night n acts)) (Command.Action ra rt)
                 = (mkGame ps (Phase.Day (n + 1) []), evs1 ++ evs2 ++ [Event.Day])).
    { unfold game_step, bind. simpl. rewrite H1. simpl. rewrite H2. simpl.
      rewrite ?app_nil_r. reflexivity. }
    split; [exact Hs|]. rewrite Hs. simpl. intros w Hin.
    rewrite !in_app_iff in Hin. destruct Hin as [Hin|[Hin|[Hin|[]]]]; try discriminate.
    + assert (Ha := handle_action_events ps acts ra rt (Event.Eliminate w)).
      rewrite H1 in Ha. simpl in Ha.
      destruct (Ha Hin) as [E|(a & t & E)]; discriminate.
    + specialize (P1 ps acts'). rewrite H2 in P1. destruct P1 as [pre [Hpre Hm]].
      assert (Hev : evs2 = Event.Dawn :: pre \/ evs2 = Event.Dawn :: pre ++ [Event.Kill]).
      { destruct (find _ acts'') as [[a [x| |]]|]; destruct Hm as (_ & _ & E); auto. }
      destruct Hev as [E|E]; rewrite E in Hin; simpl in Hin;
        rewrite ?in_app_iff in Hin; simpl in Hin;
        destruct Hin as [Hin|Hin]; try discriminate;
        try (destruct Hin as [Hin|[Hin|[]]]; [|discriminate]);
        destruct (Hpre _ Hin) as [E'|[E'|E']]; discriminate.
Qed.

Lemma kill_stage_kills_first_mafia_target_witness :
  (fst (game_step (mkGame goon_roster (Phase.Night 1 []))
          (Command.Action (Actor.Mafia 1) (Some (Target.Player 2))))).(players)
  = remove_at 1 goon_roster
  /\ game_step (mkGame mafia_roster (Phase.Night 1 []))
       (Command.Action (Actor.Mafia 1) (Some Target.NoTarget))
     = (mkGame mafia_roster (Phase.Day 2 []),
        [Event.Action (Actor.Mafia 0) (Some Target.NoTarget)] ++ [Event.Dawn] ++ [Event.Day]).
Proof.
  split.
  - apply (proj1 (proj2 kill_stage_kills_first_mafia_target)
             (mkGame goon_roster (Phase.Night 1 [])) 1 [] (Actor.Mafia 1)
             (Some (Target.Player 2)) [(Actor.Mafia 0, Target.Player 1)]
             [Event.Action (Actor.Mafia 0) (Some (Target.Player 1))]
             [(Actor.Mafia 0, Target.Player 1)] 1 [Event.Dawn; Event.Kill]);
      reflexivity.
  - apply (proj2 (proj2 kill_stage_kills_first_mafia_target)
             (mkGame mafia_roster (Phase.Night 1 [])) 1 [] (Actor.Mafia 1)
             (Some Target.NoTarget) [(Actor.Mafia 0, Target.NoTarget)]
             [Event.Action (Actor.Mafia 0) (Some Target.NoTarget)]
             [(Actor.Mafia 0, Target.NoTarget)] [Event.Dawn]);
      reflexivity.
Defined.

(** ** Dawn readiness *)

Lemma in_combine_seq {A} (l : list A) k i x :
  In (i, x) (combine (seq k (length l)) l) <-> k <= i /\ nth_error l (i - k) = Some x.
Proof.
  revert k; induction l as [|y l IH]; intros k; simpl.
  - split; [tauto|]. intros [_ H]. destruct (i - k); discriminate.
  - rewrite IH. split.
    + intros [E|(Hle & Hn)].
      * injection E as <- <-. rewrite Nat.sub_diag. auto.
      * split; [lia|]. replace (i - k) with (S (i - S k)) by lia. exact Hn.
    + intros (Hle & Hn). destruct (Nat.eq_dec i k) as [->|Hne].
      * left. rewrite Nat.sub_diag in Hn. simpl in Hn. injection Hn as ->. reflexivity.
      * right. split; [lia|]. replace (i - k) with (S (i - S k)) in Hn by lia. exact Hn.
Qed.

Lemma in_enumerate {A} (l : list A) i x :
  In (i, x) (enumerate l) <-> nth_error l i = Some x.
Proof.
  unfold enumerate. rewrite in_combine_seq, Nat.sub_0_r. split; [tauto|]. intros; split; [lia|auto].
Qed.

Lemma actor_eqb_true a b : Actor.eqb a b = true <-> a = b.
Proof.
  destruct a as [p|p], b as [q|q]; simpl; rewrite ?Nat.eqb_eq;
    split; intros H; try discriminate; try congruence.
Qed.

Definition mafia_slots (actions : Actions) : nat :=
  length (filter (fun '(a, _) => Actor.is_mafia a) actions).

Lemma filter_none {A} (f g : A -> bool) l :
  (forall x, f x = g x) -> forallb (fun y => negb (f y)) l = true -> filter g l = [].
Proof.
  intros Hfg. induction l as [|x l IH]; simpl; [reflexivity|].
  rewrite <- Hfg. destruct (f x); simpl; [discriminate|]. exact IH.
Qed.

Lemma filter_remove_first_le {A} (f g : A -> bool) l :
  length (filter g (match position f l with Some i => remove_at i l | None => l end))
  <= length (filter g l).
Proof.
  destruct (position f l) as [i|] eqn:P; [|lia].
  destruct (position_some _ _ _ P) as (l1 & y & l2 & -> & _ & _ & _ & Hr & _).
  rewrite Hr, !filter_app, !length_app. simpl. destruct (g y); simpl; lia.
Qed.

Lemma overlaps_mafia a i : Actor.overlaps a (Actor.Mafia i) = Actor.is_mafia a.
Proof. destruct a; reflexivity. Qed.

Lemma overlaps_mafia_pair i (x : Actor.t * Target.t) :
  (let '(a, _) := x in Actor.overlaps a (Actor.Mafia i)) = (let '(a, _) := x in Actor.is_mafia a).
Proof. destruct x as [a b]. apply overlaps_mafia. Qed.

(** C8: dawn starts after an accepted submission iff every player whose
    role has a night action has an entry under [Actor::Player] of its own
    index and some Mafia entry exists; an invalid submission never starts
    it.  The Mafia holds one slot: with at most one Mafia entry before, a
    Mafia submission leaves exactly its own entry as the only Mafia entry,
    and no submission creates a second one. *)
Theorem dawn_ready_iff_all_acted :
  (forall players actions,
     check_dawn players actions = true
     <-> (forall i p, nth_error players i = Some p ->
                      Role.has_night_action p.(role) = true ->
                      exists t, In (Actor.Player i, t) actions)
         /\ (exists a t, In (a, t) actions /\ Actor.is_mafia a = true))
  /\ (forall players actions ra rt,
        snd (fst (handle_action players actions ra rt)) = true
        <-> (exists actor target, validate_action players ra rt = Some (actor, target))
            /\ check_dawn players (fst (fst (handle_action players actions ra rt))) = true)
  /\ (forall actions i t, mafia_slots actions <= 1 ->
        filter (fun '(a, _) => Actor.is_mafia a)
               (fst (accept_action actions (Actor.Mafia i) (Some t)))
        = [(Actor.Mafia i, t)])
  /\ (forall actions actor target, mafia_slots actions <= 1 ->
        mafia_slots (fst (accept_action actions actor target)) <= 1).
Proof.
  split; [|split; [|split]].
  - intros players actions. unfold check_dawn.
    rewrite forallb_app, andb_true_iff. simpl. rewrite andb_true_r, forallb_forall.
    split.
    + intros [Hall Hm]. split.
      * intros i p Hp Hn.
        assert (Hin : In (Actor.Player i)
                        (map (fun '(i, _) => Actor.Player i)
                           (filter (fun '(_, p) => Role.has_night_action p.(role))
                              (enumerate players)))).
        { apply in_map_iff. exists (i, p). split; [reflexivity|].
          apply filter_In. split; [apply in_enumerate; exact Hp | exact Hn]. }
        specialize (Hall _ Hin). apply existsb_exists in Hall.
        destruct Hall as [[a t] [Hat Ha]]. apply actor_eqb_true in Ha. subst a. eauto.
      * apply existsb_exists in Hm. destruct Hm as [[a t] [Hat Ha]]. eauto.
    + intros [Hall (a & t & Hat & Ha)]. split.
      * intros x Hx. apply in_map_iff in Hx. destruct Hx as [[i p] [<- Hx]].
        apply filter_In in Hx. destruct Hx as [Hx Hn]. apply in_enumerate in Hx.
        destruct (Hall i p Hx Hn) as [t' Ht']. apply existsb_exists.
        exists (Actor.Player i, t'). split; [exact Ht'|]. apply actor_eqb_true. reflexivity.
      * apply existsb_exists. exists (a, t). auto.
  - intros players actions ra rt.
    destruct (validate_action players ra rt) as [[actor target]|] eqn:Hv.
    + rewrite (handle_action_valid _ _ _ _ _ _ Hv). simpl. split; [eauto|tauto].
    + unfold handle_action. rewrite Hv. simpl.
      split; [discriminate|]. intros [(? & ? & ?) _]. discriminate.
  - intros actions i t Hs. rewrite accept_action_eq. simpl.
    unfold mafia_slots in Hs.
    destruct (position (fun '(a, _) => Actor.overlaps a (Actor.Mafia i)) actions)
      as [k|] eqn:P.
    + destruct (position_some _ _ _ P) as (l1 & [a0 t0] & l2 & -> & _ & Fx & Hn & Hr & _).
      rewrite Hr. rewrite overlaps_mafia in Fx.
      assert (H1 : filter (fun '(a, _) => Actor.is_mafia a) l1 = []).
      { exact (filter_none _ (fun '(a, _) => Actor.is_mafia a) _ (overlaps_mafia_pair i) Hn). }
      rewrite filter_app in Hs. simpl in Hs. rewrite Fx, H1 in Hs. simpl in Hs.
      rewrite !filter_app, H1. simpl.
      destruct (filter _ l2); [reflexivity | simpl in Hs; lia].
    + assert (Hno := position_none _ _ P).
      rewrite filter_app. simpl.
      replace (filter (fun '(a, _) => Actor.is_mafia a) actions) with (@nil (Actor.t * Target.t));
        [reflexivity|].
      symmetry. apply (filter_none (fun '(a, _) => Actor.overlaps a (Actor.Mafia i))).
      * apply overlaps_mafia_pair.
      * apply forallb_forall. intros x Hx. rewrite (Hno x Hx). reflexivity.
  - intros actions actor target Hs. rewrite accept_action_eq. simpl.
    unfold mafia_slots in *.
    assert (Hle := filter_remove_first_le (fun '(a, _) => Actor.overlaps a actor)
                     (fun '(a, _) => Actor.is_mafia a) actions).
    destruct target as [t|]; simpl; [|lia].
    rewrite filter_app, length_app. simpl.
    destruct actor as [p|p]; simpl; [rewrite Nat.add_0_r; lia|].
    destruct (position (fun '(a, _) => Actor.overlaps a (Actor.Mafia p)) actions)
      as [k|] eqn:P.
    + destruct (position_some _ _ _ P) as (l1 & [a0 t0] & l2 & -> & _ & Fx & Hn & Hr & _).
      rewrite Hr. rewrite overlaps_mafia in Fx.
      assert (H1 : filter (fun '(a, _) => Actor.is_mafia a) l1 = []).
      { exact (filter_none _ (fun '(a, _) => Actor.is_mafia a) _ (overlaps_mafia_pair p) Hn). }
      rewrite filter_app in Hs |- *. simpl in Hs. rewrite Fx, H1 in Hs. rewrite H1.
      simpl in Hs |- *. lia.
    + assert (Hno := position_none _ _ P).
      replace (filter (fun '(a, _) => Actor.is_mafia a) actions) with (@nil (Actor.t * Target.t));
        [simpl; lia|].
      symmetry. apply (filter_none (fun '(a, _) => Actor.overlaps a (Actor.Mafia p))).
      * apply overlaps_mafia_pair.
      * apply forallb_forall. intros x Hx. rewrite (Hno x Hx). reflexivity.
Qed.

(** ** Phase counters *)

(** C9: the first phase after [Init] is Day 1; a step of the loop from Day
    [n] stays in Day [n], moves to Night [n] or ends the game; a step from
    Night [n] stays in Night [n], moves to Day [n + 1] or ends the game.
    [Init] is never re-entered. *)
Theorem phase_counters_advance :
  (forall ps, fst (game_start (mkGame ps Phase.Init)) = mkGame ps (Phase.Day 1 []))
  /\ (forall g n votes cmd, g.(phase) = Phase.Day n votes ->
        match (fst (game_step g cmd)).(phase) with
        | Phase.Day m _ => m = n
        | Phase.Night m _ => m = n
        | Phase.End _ => True
        | Phase.Init => False
        end)
  /\ (forall g n acts cmd, g.(phase) = Phase.Night n acts ->
        match (fst (game_step g cmd)).(phase) with
        | Phase.Night m _ => m = n
        | Phase.Day m _ => m = n + 1
        | Phase.End _ => True
        | Phase.Init => False
        end).
Proof.
  split; [|split].
  - intros ps. reflexivity.
  - intros [ps ph] n votes cmd H. simpl in H. subst ph.
    destruct cmd as [rv rb|ra rt]; [|reflexivity].
    unfold game_step, bind. simpl.
    destruct (handle_vote ps votes rv rb) as [[votes' [b|]] ev]; simpl; [|reflexivity].
    unfold handle_elect, bind. simpl.
    destruct b as [e|]; simpl; [|reflexivity].
    rewrite eliminate_eq. simpl.
    destruct (check_win (remove_at e ps)) as [[t|] ew]; simpl; auto.
  - intros [ps ph] n acts cmd H. simpl in H. subst ph.
    destruct cmd as [rv rb|ra rt]; [reflexivity|].
    unfold game_step, bind. simpl.
    destruct (handle_action ps acts ra rt) as [[acts' [|]] ev]; simpl; [|reflexivity].
    destruct (handle_dawn ps acts') as [[acts'' [v|]] ed]; simpl; [|reflexivity].
    rewrite eliminate_eq. simpl.
    destruct (check_win (remove_at v ps)) as [[t|] ew]; simpl; auto.
Qed.

(** ** Retraction of a night action *)

Lemma remove_first_facts {A} (f : A -> bool) (l : list A) :
  (forall x, In x (match position f l with Some i => remove_at i l | None => l end) -> In x l)
  /\ length (match position f l with Some i => remove_at i l | None => l end)
     = length l - (if existsb f l then 1 else 0)
  /\ (length (filter f l) <= 1 ->
      forall x, In x (match position f l with Some i => remove_at i l | None => l end) ->
                f x = false).
Proof.
  destruct (position f l) as [i|] eqn:P.
  - destruct (position_some _ _ _ P) as (l1 & y & l2 & -> & _ & Fy & Hn & Hr & _).
    rewrite Hr. assert (H1 : filter f l1 = []) by exact (filter_none f f l1 (fun _ => eq_refl) Hn).
    rewrite existsb_app. simpl. rewrite Fy, orb_true_r.
    split; [|split].
    + intros x. rewrite !in_app_iff. simpl. tauto.
    + rewrite !length_app. simpl. lia.
    + rewrite filter_app, H1. simpl. rewrite Fy. simpl. intros Hle x Hx.
      apply in_app_iff in Hx. destruct Hx as [Hx|Hx].
      * rewrite forallb_forall in Hn. specialize (Hn x Hx). destruct (f x); [discriminate|reflexivity].
      * destruct (f x) eqn:Fx; [|reflexivity].
        assert (In x (filter f l2)) by (apply filter_In; auto).
        destruct (filter f l2); [contradiction|simpl in Hle; lia].
  - assert (Hno := position_none _ _ P).
    replace (existsb f l) with false.
    + split; [auto|split; [lia|]]. intros _ x Hx. auto.
    + symmetry. apply Bool.not_true_iff_false. intros Hex. apply existsb_exists in Hex.
      destruct Hex as [x [Hx Fx]]. rewrite (Hno x Hx) in Fx. discriminate.
Qed.

(** C10 (amended): a night submission with target [None] or [Blocked]
    passes validation exactly when the submitter's raw id is on the roster.
    Otherwise it fails: one [InvalidCommand], the tally unchanged, no dawn.
    When it passes (raw id at index [i]), the validated actor is the
    submitter at [i] and the submission is a retraction: no event is
    emitted, nothing is stored, and the first entry whose actor overlaps the
    submitter (the same player, or any Mafia entry for a Mafia actor) is
    removed, so that no overlapping entry remains when there was at most
    one; the readiness check still runs on the tally. *)
Theorem action_retraction_clears_slot players actions raw_actor raw_target
  (Ht : raw_target = None \/ raw_target = Some Target.Blocked) :
  (check_player players (actor_raw raw_actor) = None ->
     validate_action players raw_actor raw_target = None
     /\ handle_action players actions raw_actor raw_target
        = ((actions, false), [Event.InvalidCommand]))
  /\ (forall i, check_player players (actor_raw raw_actor) = Some i ->
      let actor := match raw_actor with
                   | Actor.Player _ => Actor.Player i
                   | Actor.Mafia _ => Actor.Mafia i
                   end in
      validate_action players raw_actor raw_target = Some (actor, None)
      /\ let '((actions', ready), evs) := handle_action players actions raw_actor raw_target in
         evs = []
         /\ ready = check_dawn players actions'
         /\ (forall x, In x actions' -> In x actions)
         /\ length actions' = length actions
              - (if existsb (fun '(a, _) => Actor.overlaps a actor) actions then 1 else 0)
         /\ (length (filter (fun '(a, _) => Actor.overlaps a actor) actions) <= 1 ->
             forall a t, In (a, t) actions' -> Actor.overlaps a actor = false)).
Proof.
  split.
  - intros Hn.
    assert (Hv : validate_action players raw_actor raw_target = None).
    { unfold validate_action. destruct raw_actor as [r|r]; simpl in Hn; rewrite Hn; reflexivity. }
    split; [exact Hv|]. unfold handle_action. rewrite Hv. reflexivity.
  - intros i Hi actor.
    assert (Hv : validate_action players raw_actor raw_target = Some (actor, None)).
    { unfold validate_action, actor.
      destruct raw_actor as [r|r]; simpl in Hi; rewrite Hi; simpl;
        destruct Ht as [-> | ->]; reflexivity. }
    split; [exact Hv|].
    rewrite (handle_action_valid _ _ _ _ _ _ Hv), accept_action_eq. simpl.
    destruct (remove_first_facts (fun '(a, _) => Actor.overlaps a actor) actions)
      as (H1 & H2 & H3).
    split; [reflexivity|split; [reflexivity|split; [exact H1|split; [exact H2|]]]].
    intros Hle a t Hin. exact (H3 Hle (a, t) Hin).
Qed.

Lemma action_retraction_clears_slot_witness :
  handle_action minimal_roster [(Actor.Player 0, Target.NoTarget)] (Actor.Player 9) None
  = (([(Actor.Player 0, Target.NoTarget)], false), [Event.InvalidCommand])
  /\ validate_action minimal_roster (Actor.Mafia 3) (Some Target.Blocked)
     = Some (Actor.Mafia 2, None).
Proof.
  split.
  - exact (proj2 (proj1 (action_retraction_clears_slot minimal_roster
                           [(Actor.Player 0, Target.NoTarget)] (Actor.Player 9) None
                           (or_introl eq_refl)) eq_refl)).
  - exact (proj1 (proj2 (action_retraction_clears_slot minimal_roster []
                           (Actor.Mafia 3) (Some Target.Blocked)
                           (or_intror eq_refl)) 2 eq_refl)).
Defined.

(** ** Roster lookup and construction *)

Lemma check_player_none_iff ps r :
  check_player ps r = None <-> ~ In r (map raw_pid ps).
Proof.
  unfold check_player. split.
  - intros P Hin. apply in_map_iff in Hin. destruct Hin as [p [Hr Hp]].
    assert (H := position_none _ _ P p Hp). simpl in H.
    rewrite Hr, Nat.eqb_refl in H. discriminate.
  - intros Hn. destruct (position _ ps) as [i|] eqn:P; [|reflexivity].
    destruct (position_some _ _ _ P) as (l1 & x & l2 & -> & _ & Fx & _).
    apply Nat.eqb_eq in Fx. exfalso. apply Hn. rewrite <- Fx. apply in_map.
    apply in_app_iff. simpl. auto.
Qed.

Lemma check_player_some ps r i :
  check_player ps r = Some i ->
  exists p, nth_error ps i = Some p /\ p.(raw_pid) = r
            /\ forall j q, j < i -> nth_error ps j = Some q -> q.(raw_pid) <> r.
Proof.
  unfold check_player. intros P.
  destruct (position_some _ _ _ P) as (l1 & x & l2 & -> & <- & Fx & Hn & _ & Hi).
  exists x. split; [exact Hi|split; [apply Nat.eqb_eq; exact Fx|]].
  intros j q Hj Hq. rewrite nth_error_app1 in Hq by exact Hj.
  apply nth_error_In in Hq. rewrite forallb_forall in Hn. specialize (Hn q Hq).
  intros E. rewrite E, Nat.eqb_refl in Hn. discriminate.
Qed.

Lemma check_player_lt ps r i : check_player ps r = Some i -> i < length ps.
Proof.
  intros H. destruct (check_player_some _ _ _ H) as (p & Hp & _).
  apply nth_error_Some. rewrite Hp. discriminate.
Qed.

(** X1: [check_player] finds a raw id exactly when some player has it, and
    then returns the index of the first such player. *)
Theorem check_player_first_match ps r :
  (check_player ps r = None <-> ~ In r (map raw_pid ps))
  /\ (forall i, check_player ps r = Some i ->
        exists p, nth_error ps i = Some p /\ p.(raw_pid) = r
                  /\ forall j q, j < i -> nth_error ps j = Some q -> q.(raw_pid) <> r).
Proof. split; [apply check_player_none_iff | apply check_player_some]. Qed.

Lemma add_player_eq ps phase player :
  add_player ps phase player =
  match phase with
  | Phase.Init =>
      if in_dec Nat.eq_dec player.(raw_pid) (map raw_pid ps)
      then (ps, inr (mkValidationErr "Player already exists"%string))
      else (ps ++ [player], inl tt)
  | _ => (ps, inr (mkValidationErr "Can't add player during game"%string))
  end.
Proof.
  unfold add_player. destruct phase; try reflexivity.
  destruct (in_dec Nat.eq_dec player.(raw_pid) (map raw_pid ps)) as [H|H].
  - destruct (check_player ps (raw_pid player)) eqn:C; [reflexivity|].
    apply check_player_none_iff in C. contradiction.
  - apply check_player_none_iff in H. rewrite H. reflexivity.
Qed.

(** X2: [add_player] succeeds exactly in [Init] for a raw id not yet on the
    roster, and then appends the player; when it fails the roster is
    unchanged. *)
Theorem add_player_appends_new_id ps phase player :
  let '(ps', res) := add_player ps phase player in
  (res = inl tt <-> phase = Phase.Init /\ ~ In player.(raw_pid) (map raw_pid ps))
  /\ (res = inl tt -> ps' = ps ++ [player])
  /\ (res <> inl tt -> ps' = ps).
Proof.
  rewrite add_player_eq.
  destruct phase; try (repeat split; intros; try discriminate; try tauto;
                       destruct H; discriminate).
  destruct (in_dec Nat.eq_dec player.(raw_pid) (map raw_pid ps)) as [H|H];
    repeat split; intros; try discriminate; try tauto; try reflexivity.
Qed.

Lemma game_new_fold input acc :
  acc.(phase) = Phase.Init -> NoDup (map raw_pid acc.(players)) ->
  let g := fold_left (fun game player =>
             mkGame (fst (add_player game.(players) game.(phase) player)) game.(phase))
             input acc in
  g.(phase) = Phase.Init
  /\ NoDup (map raw_pid g.(players))
  /\ (forall p, In p g.(players) -> In p acc.(players) \/ In p input)
  /\ (forall r, In r (map raw_pid g.(players))
                <-> In r (map raw_pid acc.(players)) \/ In r (map raw_pid input)).
Proof.
  revert acc. induction input as [|q input IH]; intros [ps ph] Hph Hnd; simpl in *.
  - subst ph. repeat split; auto; tauto.
  - subst ph. rewrite add_player_eq.
    destruct (in_dec Nat.eq_dec q.(raw_pid) (map raw_pid ps)) as [Hq|Hq]; simpl.
    + destruct (IH (mkGame ps Phase.Init) eq_refl Hnd) as (H1 & H2 & H3 & H4).
      simpl in *. repeat split; auto.
      * intros p Hp. destruct (H3 p Hp); auto.
      * intros Hr. apply H4 in Hr. tauto.
      * intros Hr. apply H4. destruct Hr as [Hr|[<-|Hr]]; auto.
    + assert (Hnd' : NoDup (map raw_pid (ps ++ [q]))).
      { rewrite map_app. simpl. apply NoDup_app; auto using NoDup_cons, NoDup_nil.
        - intros x Hx [<-|[]]. contradiction.
        }
      destruct (IH (mkGame (ps ++ [q]) Phase.Init) eq_refl Hnd') as (H1 & H2 & H3 & H4).
      simpl in *. repeat split; auto.
      * intros p Hp. destruct (H3 p Hp) as [Hp'|Hp']; auto.
        apply in_app_iff in Hp'. simpl in Hp'. destruct Hp' as [|[<-|[]]]; auto.
      * intros Hr. apply H4 in Hr. rewrite map_app, in_app_iff in Hr. simpl in Hr. tauto.
      * intros Hr. apply H4. rewrite map_app, in_app_iff. simpl. tauto.
Qed.

Lemma first_of_each_ext s1 s2 input :
  (forall x, In x s1 <-> In x s2) -> first_of_each s1 input = first_of_each s2 input.
Proof.
  revert s1 s2. induction input as [|p input IH]; intros s1 s2 Hs; [reflexivity|]. simpl.
  destruct (in_dec Nat.eq_dec (raw_pid p) s1) as [H1|H1];
    destruct (in_dec Nat.eq_dec (raw_pid p) s2) as [H2|H2].
  - apply IH, Hs.
  - exfalso. apply H2, Hs, H1.
  - exfalso. apply H1, Hs, H2.
  - f_equal. apply IH. intros x. simpl. rewrite Hs. tauto.
Qed.

Lemma game_new_fold_eq input ps :
  (fold_left (fun game player =>
                mkGame (fst (add_player game.(players) game.(phase) player)) game.(phase))
             input (mkGame ps Phase.Init)).(players)
  = ps ++ first_of_each (map raw_pid ps) input.
Proof.
  revert ps. induction input as [|q input IH]; intros ps.
  - simpl. rewrite app_nil_r. reflexivity.
  - cbn [fold_left]. rewrite add_player_eq. cbn [players phase first_of_each].
    destruct (in_dec Nat.eq_dec q.(raw_pid) (map raw_pid ps)) as [Hq|Hq]; cbn [fst].
    + apply IH.
    + rewrite IH, <- app_assoc. simpl. do 2 f_equal.
      apply first_of_each_ext. intros x. rewrite map_app, in_app_iff. simpl. tauto.
Qed.

(** X3: [Game::new] builds a roster in [Init] with pairwise distinct raw
    ids, made of input players only, and keeping every raw id of the input.
    The roster is the input in order with every player whose raw id is
    already on the roster dropped: the first player of each raw id is the
    one kept. *)
Theorem game_new_unique_ids input :
  let g := game_new input in
  g.(phase) = Phase.Init
  /\ NoDup (map raw_pid g.(players))
  /\ (forall p, In p g.(players) -> In p input)
  /\ (forall r, In r (map raw_pid g.(players)) <-> In r (map raw_pid input))
  /\ g.(players) = first_of_each [] input
  /\ (forall r, find (fun p => Nat.eqb p.(raw_pid) r) g.(players)
                = find (fun p => Nat.eqb p.(raw_pid) r) input).
Proof.
  destruct (game_new_fold input (mkGame [] Phase.Init) eq_refl (NoDup_nil _))
    as (H1 & H2 & H3 & H4).
  assert (H5 := game_new_fold_eq input []). simpl in H5.
  unfold game_new. simpl in *. split; [exact H1|split; [exact H2|split; [|split; [|split]]]].
  - intros p Hp. destruct (H3 p Hp); [contradiction|auto].
  - intros r. rewrite H4. tauto.
  - exact H5.
  - intros r. rewrite H5. clear.
    assert (G : forall seen, ~ In r seen ->
                find (fun p => Nat.eqb p.(raw_pid) r) (first_of_each seen input)
                = find (fun p => Nat.eqb p.(raw_pid) r) input).
    { induction input as [|p input IH]; intros seen Hr; [reflexivity|]. simpl.
      destruct (in_dec Nat.eq_dec (raw_pid p) seen) as [Hp|Hp].
      - destruct (Nat.eqb_spec (raw_pid p) r) as [<-|Hne]; [contradiction|].
        apply IH, Hr.
      - simpl. destruct (Nat.eqb_spec (raw_pid p) r) as [E|Hne]; [reflexivity|].
        apply IH. simpl. intros [E|E]; [exact (Hne E)|exact (Hr E)]. }
    apply G. intros [].
Qed.

(** ** The vote tally *)

(** One ballot per voter, and every index in the tally on the roster. *)
Definition votes_wf (n : nat) (votes : Votes) : Prop :=
  NoDup (map fst votes)
  /\ Forall (fun '(v, b) => v < n /\ match b with
                                      | Ballot.Player p => p < n
                                      | Ballot.Abstain => True
                                      end) votes.

Lemma filter_voter_nil (l : Votes) voter :
  ~ In voter (map fst l) -> filter (fun '(v, _) => Nat.eqb v voter) l = [].
Proof.
  induction l as [|[v b] l IH]; simpl; intros Hn; [reflexivity|].
  destruct (Nat.eqb_spec v voter) as [->|_]; [exfalso; auto|]. auto.
Qed.

Lemma remove_voter_facts (votes : Votes) voter :
  NoDup (map fst votes) ->
  let votes1 := match position (fun '(v, _) => Nat.eqb v voter) votes with
                | Some i => remove_at i votes
                | None => votes
                end in
  ~ In voter (map fst votes1) /\ NoDup (map fst votes1) /\ incl votes1 votes.
Proof.
  intros Hnd; cbv zeta. destruct (position _ votes) as [i|] eqn:P; cbv iota beta.
  - destruct (position_some _ _ _ P) as (l1 & [v b] & l2 & -> & _ & Fx & _ & Hr & _).
    apply Nat.eqb_eq in Fx. subst v. rewrite Hr.
    rewrite map_app in Hnd |- *. simpl in Hnd.
    split; [apply NoDup_remove_2; exact Hnd|split; [eapply NoDup_remove_1; exact Hnd|]].
    intros x. rewrite !in_app_iff. simpl. tauto.
  - assert (Hno := position_none _ _ P).
    split; [|split; [exact Hnd | intros x; auto]].
    intros Hin. apply in_map_iff in Hin. destruct Hin as [[v b] [Hv Hin]].
    simpl in Hv; subst v. specialize (Hno _ Hin). simpl in Hno.
    rewrite Nat.eqb_refl in Hno. discriminate.
Qed.

Lemma validate_vote_in_range players rv rb voter bo :
  validate_vote players rv rb = Some (voter, bo) ->
  voter < length players
  /\ match bo with Some (Ballot.Player p) => p < length players | _ => True end.
Proof.
  unfold validate_vote. destruct (check_player players rv) as [v|] eqn:C; [|discriminate].
  apply check_player_lt in C.
  destruct rb as [[r|]|].
  - destruct (check_player players r) as [p|] eqn:Cp; [|discriminate].
    apply check_player_lt in Cp. intros [= <- <-]. auto.
  - intros [= <- <-]. auto.
  - intros [= <- <-]. auto.
Qed.

Lemma handle_vote_tally_wf players votes rv rb
  (Hwf : votes_wf (length players) votes) :
  let votes' := fst (fst (handle_vote players votes rv rb)) in
  votes_wf (length players) votes'
  /\ (forall voter bo, validate_vote players rv rb = Some (voter, bo) ->
        filter (fun '(v, _) => Nat.eqb v voter) votes'
        = match bo with Some b => [(voter, b)] | None => [] end).
Proof.
  destruct (validate_vote players rv rb) as [[voter bo]|] eqn:Hv.
  2:{ unfold handle_vote. rewrite Hv. simpl. split; [exact Hwf|discriminate]. }
  rewrite (handle_vote_valid _ votes _ _ _ _ Hv).
  destruct (accept_vote votes voter bo) as [votes' former] eqn:Ha. simpl.
  destruct Hwf as [Hnd Hall].
  destruct (remove_voter_facts votes voter Hnd) as (Hn1 & Hnd1 & Hinc).
  destruct (validate_vote_in_range _ _ _ _ _ Hv) as [Hvl Hbl].
  assert (Hv' : votes' = (match position (fun '(v, _) => Nat.eqb v voter) votes with
                          | Some i => remove_at i votes
                          | None => votes
                          end) ++ match bo with Some b => [(voter, b)] | None => [] end).
  { rewrite accept_vote_eq in Ha.
    destruct (position (fun '(v, _) => Nat.eqb v voter) votes); injection Ha as <- _;
      reflexivity. }
  set (votes1 := match position (fun '(v, _) => Nat.eqb v voter) votes with
                 | Some i => remove_at i votes
                 | None => votes
                 end) in *.
  subst votes'. split; [split|].
  - rewrite map_app. destruct bo as [b|]; simpl; [|rewrite app_nil_r; exact Hnd1].
    apply NoDup_app; auto using NoDup_cons, NoDup_nil.
    intros x Hx [<-|[]]. contradiction.
  - apply Forall_app. split.
    + apply Forall_forall. intros x Hx. rewrite Forall_forall in Hall. apply Hall, Hinc, Hx.
    + destruct bo as [b|]; [|constructor]. constructor; [|constructor].
      split; [exact Hvl|]. destruct b; auto.
  - intros voter0 bo0 E. injection E as <- <-.
    rewrite filter_app, (filter_voter_nil _ _ Hn1).
    destruct bo as [b|]; simpl; [rewrite Nat.eqb_refl|]; reflexivity.
Qed.

(** X4: [handle_vote] keeps the tally well formed (one ballot per voter,
    every voter and voted-for player a roster index), and after an
    accepted command the voter's only entry is the new ballot, or none for
    a retraction. *)
Theorem handle_vote_one_ballot_per_voter players votes rv rb
  (Hwf : votes_wf (length players) votes) :
  let votes' := fst (fst (handle_vote players votes rv rb)) in
  votes_wf (length players) votes'
  /\ (forall voter bo, validate_vote players rv rb = Some (voter, bo) ->
        filter (fun '(v, _) => Nat.eqb v voter) votes'
        = match bo with Some b => [(voter, b)] | None => [] end).
Proof. exact (handle_vote_tally_wf players votes rv rb Hwf). Qed.

Lemma handle_vote_one_ballot_per_voter_witness :
  votes_wf 3 [(0, Ballot.Abstain); (1, Ballot.Player 2)]
  /\ votes_wf (length minimal_roster)
       (fst (fst (handle_vote minimal_roster [(0, Ballot.Abstain); (1, Ballot.Player 2)]
                    1 (Some (Ballot.Player 3))))).
Proof.
  assert (Hwf : votes_wf 3 [(0, Ballot.Abstain); (1, Ballot.Player 2)]).
  { split; [repeat constructor; simpl; intuition discriminate|repeat constructor; lia]. }
  split; [exact Hwf|].
  exact (proj1 (handle_vote_one_ballot_per_voter minimal_roster
                  [(0, Ballot.Abstain); (1, Ballot.Player 2)] 1 (Some (Ballot.Player 3)) Hwf)).
Defined.

(** X5: a vote fails validation exactly when the voter's raw id, or the
    raw id of a player ballot, is not on the roster; it then yields one
    [InvalidCommand] event, no election and an unchanged tally. *)
Theorem vote_validation_fails_iff players votes rv rb :
  (validate_vote players rv rb = None
   <-> check_player players rv = None
       \/ (exists r, rb = Some (Ballot.Player r) /\ check_player players r = None))
  /\ (validate_vote players rv rb = None ->
      handle_vote players votes rv rb = ((votes, None), [Event.InvalidCommand])).
Proof.
  split.
  - unfold validate_vote. destruct (check_player players rv) eqn:Cr;
      [|split; intros _; [left|]; reflexivity].
    destruct rb as [[q|]|];
      try (destruct (check_player players q) eqn:Cq);
      split; intros H; try discriminate; try reflexivity;
      try (right; exists q; split; [reflexivity | assumption]);
      destruct H as [H|(q' & Hq & Cq')]; try discriminate;
      injection Hq as <-; congruence.
  - intros H. unfold handle_vote. rewrite H. reflexivity.
Qed.

(** ** What dawn does to the tally *)

(** An entry [y] is [x] with the same actor and either the same target or
    the target [Blocked]. *)
Definition retarget (x y : Actor.t * Target.t) : Prop :=
  fst y = fst x /\ (snd y = snd x \/ snd y = Target.Blocked).

Lemma strip_fst actions s :
  fst (strip actions s)
  = map (fun '(a, t) => if Actor.eqb a (Actor.Player s) then (a, Target.Blocked) else (a, t))
        actions.
Proof.
  induction actions as [|[a t] rest IH]; [reflexivity|]. simpl.
  destruct (Actor.eqb a (Actor.Player s)); rewrite !bind_fst; simpl;
    rewrite ?bind_fst; simpl; rewrite IH; reflexivity.
Qed.

Lemma save_fst actions d :
  fst (save actions d)
  = map (fun '(a, t) =>
           match a with
           | Actor.Mafia _ =>
               (a, match t with
                   | Target.Player pid => if Nat.eqb pid d then Target.Blocked else t
                   | _ => t
                   end)
           | _ => (a, t)
           end) actions.
Proof.
  induction actions as [|[a t] rest IH]; [reflexivity|]. simpl.
  destruct a; rewrite !bind_fst; simpl; rewrite ?bind_fst; simpl; rewrite IH; reflexivity.
Qed.

Lemma retarget_refl l : Forall2 retarget l l.
Proof. induction l; constructor; [split; auto|auto]. Qed.

Lemma retarget_trans l1 l2 l3 :
  Forall2 retarget l1 l2 -> Forall2 retarget l2 l3 -> Forall2 retarget l1 l3.
Proof.
  intros H12. revert l3. induction H12 as [|x y l1 l2 Hxy _ IH]; intros l3 H23;
    inversion H23 as [|y' z l2' l3' Hyz H23' E1 E2]; subst; constructor; auto.
  destruct Hxy as [Fxy Sxy]. destruct Hyz as [Fyz Syz]. split; [congruence|].
  destruct Syz as [-> | ->]; auto.
Qed.

Lemma retarget_preserves (Q : Actor.t * Target.t -> Prop) l1 l2 :
  (forall x y, retarget x y -> Q x -> Q y) ->
  Forall2 retarget l1 l2 -> Forall Q l1 -> Forall Q l2.
Proof.
  intros HQ H. induction H as [|x y l1 l2 Hxy _ IH]; intros Hl; [constructor|].
  inversion Hl; subst. constructor; eauto.
Qed.

Lemma strip_retarget actions s : Forall2 retarget actions (fst (strip actions s)).
Proof.
  rewrite strip_fst. induction actions as [|[a t] rest IH]; simpl; constructor; auto.
  destruct (Actor.eqb a (Actor.Player s)); split; simpl; auto.
Qed.

Lemma save_retarget actions d : Forall2 retarget actions (fst (save actions d)).
Proof.
  rewrite save_fst. induction actions as [|[a t] rest IH]; simpl; constructor; auto.
  destruct a; [split; simpl; auto|].
  split; [reflexivity|]. simpl. destruct t as [pid| |]; auto.
  destruct (Nat.eqb pid d); auto.
Qed.

Lemma for_each_retarget f xs actions :
  (forall a i, Forall2 retarget a (fst (f a i))) ->
  Forall2 retarget actions (fst (for_each xs f actions)).
Proof.
  intros Hf. revert actions.
  induction xs as [|[i p] xs IH]; intros actions; simpl; [apply retarget_refl|].
  rewrite bind_fst. eapply retarget_trans; [apply Hf|apply IH].
Qed.

Lemma for_each_establishes (Q : Actor.t * Target.t -> Prop) f xs i p actions :
  (forall a j, Forall2 retarget a (fst (f a j))) ->
  (forall x y, retarget x y -> Q x -> Q y) ->
  (forall a, Forall Q (fst (f a i))) ->
  In (i, p) xs -> Forall Q (fst (for_each xs f actions)).
Proof.
  intros Hf HQ Hi. revert actions.
  induction xs as [|[j q] xs IH]; intros actions Hin; [destruct Hin|]. simpl.
  rewrite bind_fst. destruct Hin as [E|Hin].
  - injection E as -> ->.
    eapply retarget_preserves; [exact HQ|apply for_each_retarget, Hf|apply Hi].
  - apply IH, Hin.
Qed.

Lemma dawn_actions players actions :
  fst (fst (handle_dawn players actions))
  = fst (for_each (get_players_that players (is_role Role.DOCTOR)) save
           (fst (for_each (get_players_that players (is_role Role.STRIPPER)) strip actions))).
Proof.
  rewrite handle_dawn_eq.
  destruct (for_each _ strip actions) as [a1 e1]. simpl.
  destruct (for_each _ save a1) as [a2 e2] eqn:E2.
  destruct (kill_stage a2) as [v e4]. reflexivity.
Qed.

Lemma in_players_that players r i p :
  nth_error players i = Some p -> p.(role) = r ->
  In (i, p) (get_players_that players (is_role r)).
Proof.
  intros Hn Hr. unfold get_players_that. apply filter_In. split.
  - apply in_enumerate, Hn.
  - unfold is_role. simpl. destruct (Role.eq_dec (role p) r); [reflexivity|contradiction].
Qed.

(** X6: dawn resolution only blocks actions: the resolved tally has the
    same actors in the same order as the submitted one, and each target is
    either kept or replaced by [Blocked]. *)
Theorem dawn_only_blocks players actions :
  Forall2 (fun x y => fst y = fst x /\ (snd y = snd x \/ snd y = Target.Blocked))
    actions (fst (fst (handle_dawn players actions))).
Proof.
  rewrite dawn_actions. eapply retarget_trans; apply for_each_retarget;
    [apply strip_retarget|apply save_retarget].
Qed.

(** X7: after dawn, every action submitted under [Actor::Player(i)] by a
    player [i] whose role is Stripper is [Blocked]: a Stripper always
    blocks its own action, whatever it targeted. *)
Theorem stripper_actions_blocked players actions i p
  (Hi : nth_error players i = Some p) (Hr : p.(role) = Role.STRIPPER) :
  forall t, In (Actor.Player i, t) (fst (fst (handle_dawn players actions))) ->
            t = Target.Blocked.
Proof.
  set (Q := fun x : Actor.t * Target.t => fst x = Actor.Player i -> snd x = Target.Blocked).
  assert (HQ : forall x y, retarget x y -> Q x -> Q y).
  { intros x y [Fxy Sxy] Hx Hy. unfold Q in *. rewrite Fxy in Hy.
    destruct Sxy as [-> | ->]; auto. }
  assert (H1 : Forall Q (fst (for_each (get_players_that players (is_role Role.STRIPPER))
                                 strip actions))).
  { eapply (for_each_establishes Q strip _ i p); [apply strip_retarget|exact HQ| |].
    - intros a. rewrite strip_fst. apply Forall_forall. intros x Hx.
      apply in_map_iff in Hx. destruct Hx as [[b t] [<- _]]. unfold Q.
      destruct (Actor.eqb b (Actor.Player i)) eqn:E; simpl; [reflexivity|].
      intros ->. simpl in E. rewrite Nat.eqb_refl in E. discriminate.
    - apply in_players_that; assumption. }
  assert (H2 := retarget_preserves Q _ _ HQ
                 (for_each_retarget save (get_players_that players (is_role Role.DOCTOR))
                    _ save_retarget) H1).
  rewrite <- dawn_actions in H2. intros t Hin.
  rewrite Forall_forall in H2. exact (H2 _ Hin eq_refl).
Qed.

Lemma stripper_actions_blocked_witness :
  nth_error strip_roster 0 = Some (pl 1 Role.STRIPPER) /\ (pl 1 Role.STRIPPER).(role) = Role.STRIPPER
  /\ (forall t, In (Actor.Player 0, t)
                  (fst (fst (handle_dawn strip_roster
                                         [(Actor.Player 0, Target.Player 1);
                                          (Actor.Mafia 0, Target.Player 2)]))) ->
                t = Target.Blocked).
Proof.
  split; [reflexivity|split; [reflexivity|]].
  exact (stripper_actions_blocked strip_roster
           [(Actor.Player 0, Target.Player 1); (Actor.Mafia 0, Target.Player 2)]
           0 (pl 1 Role.STRIPPER) eq_refl eq_refl).
Defined.

(** X8: after dawn no Mafia action targets a player whose role is Doctor
    (each Doctor protects its own index, blocked or not), so the player
    killed at dawn is never a Doctor. *)
Theorem doctor_never_killed players actions d p
  (Hd : nth_error players d = Some p) (Hr : p.(role) = Role.DOCTOR) :
  (forall a, In (a, Target.Player d) (fst (fst (handle_dawn players actions))) ->
             Actor.is_mafia a = false)
  /\ snd (fst (handle_dawn players actions)) <> Some d.
Proof.
  set (Q := fun x : Actor.t * Target.t =>
              Actor.is_mafia (fst x) = true -> snd x <> Target.Player d).
  assert (HQ : forall x y, retarget x y -> Q x -> Q y).
  { intros x y [Fxy Sxy] Hx Hy. unfold Q in *. rewrite Fxy in Hy.
    destruct Sxy as [-> | ->]; [auto|discriminate]. }
  assert (H2 : Forall Q (fst (fst (handle_dawn players actions)))).
  { rewrite dawn_actions.
    eapply (for_each_establishes Q save _ d p); [apply save_retarget|exact HQ| |].
    - intros a. rewrite save_fst. apply Forall_forall. intros x Hx.
      apply in_map_iff in Hx. destruct Hx as [[b t] [<- _]]. unfold Q.
      destruct b as [q|q]; simpl; [discriminate|intros _].
      destruct t as [pid| |]; try discriminate.
      destruct (Nat.eqb_spec pid d) as [->|Hne]; [discriminate|congruence].
    - apply in_players_that; assumption. }
  rewrite Forall_forall in H2. split.
  - intros a Hin. specialize (H2 _ Hin). unfold Q in H2. simpl in H2.
    destruct (Actor.is_mafia a); [|reflexivity]. exfalso. apply H2; reflexivity.
  - rewrite handle_dawn_eq in H2 |- *.
    destruct (for_each _ strip actions) as [a1 e1].
    destruct (for_each _ save a1) as [a2 e2].
    rewrite kill_stage_eq in H2 |- *. simpl in H2 |- *.
    destruct (find (fun '(a, _) => Actor.is_mafia a) a2) as [[a [v| |]]|] eqn:F;
      simpl; try discriminate.
    intros [= ->]. apply find_some in F. destruct F as [Hin Hm].
    exact (H2 _ Hin Hm eq_refl).
Qed.

Lemma doctor_never_killed_witness :
  nth_error strip_roster 1 = Some (pl 2 Role.DOCTOR) /\ (pl 2 Role.DOCTOR).(role) = Role.DOCTOR
  /\ snd (fst (handle_dawn strip_roster
                 [(Actor.Player 1, Target.Player 1); (Actor.Mafia 0, Target.Player 1)]))
     <> Some 1.
Proof.
  split; [reflexivity|split; [reflexivity|]].
  exact (proj2 (doctor_never_killed strip_roster
                  [(Actor.Player 1, Target.Player 1); (Actor.Mafia 0, Target.Player 1)]
                  1 (pl 2 Role.DOCTOR) eq_refl eq_refl)).
Defined.

(** ** The night-action tally *)

(** The slot an actor occupies: its own index for a player, one shared
    slot for the Mafia.  Two actors overlap iff they share a slot. *)
Definition actor_slot (a : Actor.t) : option nat :=
  match a with
  | Actor.Player p => Some p
  | Actor.Mafia _ => None
  end.

(** One entry per slot, and every actor and player target a roster index. *)
Definition actions_wf (n : nat) (actions : Actions) : Prop :=
  NoDup (map (fun x => actor_slot (fst x)) actions)
  /\ Forall (fun '(a, t) => actor_raw a < n /\ match t with
                                              | Target.Player p => p < n
                                              | _ => True
                                              end) actions.

Lemma overlaps_slot a b : Actor.overlaps a b = true <-> actor_slot a = actor_slot b.
Proof.
  destruct a as [p|p], b as [q|q]; simpl; rewrite ?Nat.eqb_eq;
    split; intros H; try discriminate; try congruence; reflexivity.
Qed.

Lemma filter_slot_nil (l : Actions) actor :
  ~ In (actor_slot actor) (map (fun x => actor_slot (fst x)) l) ->
  filter (fun '(a, _) => Actor.overlaps a actor) l = [].
Proof.
  induction l as [|[a t] l IH]; simpl; intros Hn; [reflexivity|].
  destruct (Actor.overlaps a actor) eqn:E; [|auto].
  apply overlaps_slot in E. exfalso. auto.
Qed.

Lemma remove_overlap_facts (actions : Actions) actor :
  NoDup (map (fun x => actor_slot (fst x)) actions) ->
  let actions1 := match position (fun '(a, _) => Actor.overlaps a actor) actions with
                  | Some i => remove_at i actions
                  | None => actions
                  end in
  ~ In (actor_slot actor) (map (fun x => actor_slot (fst x)) actions1)
  /\ NoDup (map (fun x => actor_slot (fst x)) actions1) /\ incl actions1 actions.
Proof.
  intros Hnd; cbv zeta. destruct (position _ actions) as [i|] eqn:P; cbv iota beta.
  - destruct (position_some _ _ _ P) as (l1 & [a t] & l2 & -> & _ & Fx & _ & Hr & _).
    apply overlaps_slot in Fx. rewrite Hr.
    rewrite map_app in Hnd |- *. simpl in Hnd. rewrite Fx in Hnd.
    split; [apply NoDup_remove_2; exact Hnd|split; [eapply NoDup_remove_1; exact Hnd|]].
    intros x. rewrite !in_app_iff. simpl. tauto.
  - assert (Hno := position_none _ _ P).
    split; [|split; [exact Hnd | intros x; auto]].
    intros Hin. apply in_map_iff in Hin. destruct Hin as [[a t] [Hs Hin]].
    specialize (Hno _ Hin). simpl in Hs, Hno.
    apply (proj2 (overlaps_slot a actor)) in Hs. congruence.
Qed.

Lemma validate_action_in_range players ra rt actor t :
  validate_action players ra rt = Some (actor, t) ->
  actor_raw actor < length players
  /\ match t with Some (Target.Player p) => p < length players | _ => True end.
Proof.
  unfold validate_action.
  assert (Ha : forall a, match ra with
                         | Actor.Player r => option_map Actor.Player (check_player players r)
                         | Actor.Mafia r => option_map Actor.Mafia (check_player players r)
                         end = Some a -> actor_raw a < length players).
  { intros a. destruct ra as [r|r]; destruct (check_player players r) as [i|] eqn:C;
      simpl; intros E; try discriminate; injection E as <-; simpl;
      exact (check_player_lt _ _ _ C). }
  destruct (match ra with
            | Actor.Player r => option_map Actor.Player (check_player players r)
            | Actor.Mafia r => option_map Actor.Mafia (check_player players r)
            end) as [a|]; [|discriminate].
  specialize (Ha a eq_refl).
  destruct rt as [[r| |]|].
  - destruct (check_player players r) as [p|] eqn:Cp; [|discriminate].
    intros [= <- <-]. split; [exact Ha|exact (check_player_lt _ _ _ Cp)].
  - intros [= <- <-]. auto.
  - intros [= <- <-]. auto.
  - intros [= <- <-]. auto.
Qed.

Lemma handle_action_tally_wf players actions ra rt
  (Hwf : actions_wf (length players) actions) :
  let actions' := fst (fst (handle_action players actions ra rt)) in
  actions_wf (length players) actions'
  /\ (forall actor t, validate_action players ra rt = Some (actor, t) ->
        filter (fun '(a, _) => Actor.overlaps a actor) actions'
        = match t with Some t => [(actor, t)] | None => [] end).
Proof.
  destruct (validate_action players ra rt) as [[actor t]|] eqn:Hv.
  2:{ unfold handle_action. rewrite Hv. simpl. split; [exact Hwf|discriminate]. }
  rewrite (handle_action_valid _ actions _ _ _ _ Hv), accept_action_eq. cbv zeta.
  destruct Hwf as [Hnd Hall].
  destruct (remove_overlap_facts actions actor Hnd) as (Hn1 & Hnd1 & Hinc).
  destruct (validate_action_in_range _ _ _ _ _ Hv) as [Hal Htl].
  set (actions1 := match position (fun '(a, _) => Actor.overlaps a actor) actions with
                   | Some i => remove_at i actions
                   | None => actions
                   end) in *.
  assert (Hall1 : Forall (fun '(a, t) => actor_raw a < length players
                                         /\ match t with
                                            | Target.Player p => p < length players
                                            | _ => True
                                            end) actions1).
  { apply Forall_forall. intros x Hx. rewrite Forall_forall in Hall. apply Hall, Hinc, Hx. }
  destruct t as [t|]; simpl; (split; [split|]).
  - rewrite map_app. simpl. apply NoDup_app; auto using NoDup_cons, NoDup_nil.
    intros x Hx [<-|[]]. contradiction.
  - apply Forall_app. split; [exact Hall1|]. constructor; [|constructor].
    split; [exact Hal|]. destruct t; auto.
  - intros actor0 t0 E. injection E as <- <-.
    rewrite filter_app, (filter_slot_nil _ _ Hn1). simpl.
    assert (Ho : Actor.overlaps actor actor = true) by (apply overlaps_slot; reflexivity).
    rewrite Ho. reflexivity.
  - exact Hnd1.
  - exact Hall1.
  - intros actor0 t0 E. injection E as <- <-. apply filter_slot_nil, Hn1.
Qed.

(** X9: [handle_action] keeps the night tally well formed (at most one
    entry per player and one for the whole Mafia, every actor and player
    target a roster index), and after an accepted submission the only entry
    overlapping the actor is the submitted one, or none for a retraction. *)
Theorem handle_action_one_entry_per_slot players actions ra rt
  (Hwf : actions_wf (length players) actions) :
  let actions' := fst (fst (handle_action players actions ra rt)) in
  actions_wf (length players) actions'
  /\ (forall actor t, validate_action players ra rt = Some (actor, t) ->
        filter (fun '(a, _) => Actor.overlaps a actor) actions'
        = match t with Some t => [(actor, t)] | None => [] end).
Proof. exact (handle_action_tally_wf players actions ra rt Hwf). Qed.

Lemma handle_action_one_entry_per_slot_witness :
  actions_wf 3 [(Actor.Player 1, Target.Player 0); (Actor.Mafia 2, Target.Player 1)]
  /\ actions_wf (length cop_roster)
       (fst (fst (handle_action cop_roster
                    [(Actor.Player 1, Target.Player 0); (Actor.Mafia 2, Target.Player 1)]
                    (Actor.Mafia 3) (Some (Target.Player 1))))).
Proof.
  assert (Hwf : actions_wf 3 [(Actor.Player 1, Target.Player 0);
                              (Actor.Mafia 2, Target.Player 1)]).
  { split; [repeat constructor; simpl; intuition discriminate
           |repeat constructor; simpl; lia]. }
  split; [exact Hwf|].
  exact (proj1 (handle_action_one_entry_per_slot cop_roster
                  [(Actor.Player 1, Target.Player 0); (Actor.Mafia 2, Target.Player 1)]
                  (Actor.Mafia 3) (Some (Target.Player 1)) Hwf)).
Defined.

(** ** Elections *)

Lemma remove_at_split {A} (l : list A) i : remove_at i l = firstn i l ++ skipn (S i) l.
Proof.
  revert i; induction l as [|x l IH]; intros [|i]; simpl; try reflexivity.
  rewrite IH. reflexivity.
Qed.

Lemma remove_at_length {A} (l : list A) i :
  length (remove_at i l) = if i <? length l then length l - 1 else length l.
Proof.
  revert i; induction l as [|x l IH]; intros [|i]; simpl; try reflexivity.
  - lia.
  - rewrite IH. destruct (Nat.ltb_spec i (length l)); destruct (Nat.ltb_spec (S i) (S (length l)));
      lia.
Qed.

Lemma remove_at_incl {A} (l : list A) i : incl (remove_at i l) l.
Proof.
  revert i; induction l as [|x l IH]; intros [|i] y; simpl; try tauto.
  intros [->|Hy]; [left; reflexivity|right; exact (IH i y Hy)].
Qed.

(** X11: a day election ends the day.  An [Abstain] election keeps the
    roster and opens Night [n] with an empty tally.  Electing the player at
    index [e] removes exactly that player (the roster shrinks by one and
    keeps its order) and then opens Night [n] with an empty tally, unless
    the win check on the new roster names a winner, in which case the game
    ends with that team. *)
Theorem election_ends_day ps n votes e (He : e < length ps) :
  handle_elect ps (Phase.Day n votes) Ballot.Abstain
  = ((ps, Phase.Night n []), [Event.Elect Ballot.Abstain; Event.Night])
  /\ let '((ps', ph'), evs) := handle_elect ps (Phase.Day n votes) (Ballot.Player e) in
     ps' = firstn e ps ++ skipn (S e) ps
     /\ length ps' = length ps - 1
     /\ hd_error evs = Some (Event.Elect (Ballot.Player e))
     /\ match fst (check_win ps') with
        | None => ph' = Phase.Night n []
        | Some t => ph' = Phase.End (Winner.Team t)
        end.
Proof.
  split; [reflexivity|].
  unfold handle_elect, bind. simpl. rewrite eliminate_eq. simpl.
  apply Nat.ltb_lt in He.
  destruct (check_win (remove_at e ps)) as [[t|] ew] eqn:W; simpl; rewrite W; simpl;
    (split; [apply remove_at_split|split; [|split; reflexivity]]);
    rewrite remove_at_length, He; reflexivity.
Qed.

Lemma election_ends_day_witness :
  1 < length minimal_roster
  /\ handle_elect minimal_roster (Phase.Day 1 []) Ballot.Abstain
     = ((minimal_roster, Phase.Night 1 []), [Event.Elect Ballot.Abstain; Event.Night]).
Proof.
  assert (He : 1 < length minimal_roster) by (simpl; lia).
  split; [exact He|].
  exact (proj1 (election_ends_day minimal_roster 1 [] 1 He)).
Defined.

(** ** Invariants of the game loop *)

(** The tally of a phase is empty (vacuous for [Init] and [End]). *)
Definition tally_empty (ph : Phase.t) : Prop :=
  match ph with
  | Phase.Day _ votes => votes = []
  | Phase.Night _ actions => actions = []
  | _ => True
  end.

(** The tally of the current phase is well formed for the roster. *)
Definition game_wf (g : Game) : Prop :=
  match g.(phase) with
  | Phase.Day _ votes => votes_wf (length g.(players)) votes
  | Phase.Night _ actions => actions_wf (length g.(players)) actions
  | _ => True
  end.

Lemma next_phase_empty ps ph : tally_empty (fst (next_phase ps ph)).
Proof. unfold next_phase. destruct ph; simpl; rewrite ?bind_fst; simpl; auto. Qed.

Lemma tally_empty_wf ps ph : tally_empty ph -> game_wf (mkGame ps ph).
Proof.
  unfold tally_empty, game_wf. destruct ph; simpl; auto; intros ->;
    split; constructor.
Qed.

Lemma handle_elect_fst ps ph b :
  fst (handle_elect ps ph b)
  = let ps' := match b with
               | Ballot.Player e => remove_at e ps
               | Ballot.Abstain => ps
               end in
    (ps', fst (next_phase ps' (snd (fst (match b with
                                         | Ballot.Player e => eliminate ps ph e
                                         | Ballot.Abstain => ret (ps, ph)
                                         end))))).
Proof.
  unfold handle_elect. rewrite bind_fst. cbv beta. rewrite bind_fst.
  destruct b as [e|].
  - rewrite eliminate_eq. cbv zeta.
    destruct (check_win (remove_at e ps)) as [w ew]. simpl.
    rewrite bind_fst. reflexivity.
  - simpl. rewrite bind_fst. reflexivity.
Qed.

Ltac destruct_next_phase :=
  match goal with |- context [next_phase ?a ?b] => destruct (next_phase a b) end.

Lemma game_step_fst_players g cmd :
  (fst (game_step g cmd)).(players) = g.(players)
  \/ exists v, (fst (game_step g cmd)).(players) = remove_at v g.(players).
Proof.
  destruct g as [ps ph]. unfold game_step. simpl.
  destruct ph as [|n votes|n acts|w]; destruct cmd as [rv rb|ra rt];
    rewrite ?bind_fst; simpl; auto.
  - destruct (fst (handle_vote ps votes rv rb)) as [votes' [b|]]; simpl; auto.
    rewrite bind_fst, handle_elect_fst. simpl.
    destruct b as [e|]; simpl; eauto.
  - destruct (fst (handle_action ps acts ra rt)) as [acts' [|]]; simpl; auto.
    rewrite bind_fst. destruct (fst (handle_dawn ps acts')) as [acts'' [v|]]; simpl.
    + rewrite bind_fst, eliminate_eq. simpl.
      destruct (check_win (remove_at v ps)) as [w ew]. simpl.
      unfold bind. destruct_next_phase. simpl. eauto.
    + auto.
Qed.

Lemma remove_at_length_le {A} (l : list A) i : length (remove_at i l) <= length l.
Proof. rewrite remove_at_length. destruct (i <? length l); lia. Qed.

Lemma game_step_wf g cmd : game_wf g -> game_wf (fst (game_step g cmd)).
Proof.
  destruct g as [ps ph]. unfold game_step. simpl.
  destruct ph as [|n votes|n acts|w]; destruct cmd as [rv rb|ra rt];
    rewrite ?bind_fst; simpl; auto; intros Hwf.
  - assert (H := proj1 (handle_vote_tally_wf ps votes rv rb Hwf)). simpl in H.
    destruct (fst (handle_vote ps votes rv rb)) as [votes' [b|]]; simpl; [|exact H].
    rewrite bind_fst, handle_elect_fst. simpl. apply tally_empty_wf, next_phase_empty.
  - assert (H := proj1 (handle_action_tally_wf ps acts ra rt Hwf)). simpl in H.
    destruct (fst (handle_action ps acts ra rt)) as [acts' [|]]; simpl; [|exact H].
    rewrite bind_fst. destruct (fst (handle_dawn ps acts')) as [acts'' victim]. simpl.
    rewrite bind_fst.
    destruct victim as [v|]; simpl;
      [rewrite eliminate_eq; simpl; destruct (check_win (remove_at v ps)); simpl|];
      rewrite ?(@bind_fst Phase.t Game); simpl; apply tally_empty_wf;
      first [apply next_phase_empty | reflexivity].
Qed.

(** X12: the roster only shrinks.  One step of the loop keeps the roster or
    removes one entry by index; over any sequence of commands the final
    roster is a subset of the initial one and no longer. *)
Theorem roster_only_shrinks :
  (forall g cmd,
     (fst (game_step g cmd)).(players) = g.(players)
     \/ exists v, (fst (game_step g cmd)).(players) = remove_at v g.(players))
  /\ (forall g cmds,
        incl (fst (run_steps g cmds)).(players) g.(players)
        /\ length (fst (run_steps g cmds)).(players) <= length g.(players)).
Proof.
  split; [exact game_step_fst_players|].
  intros g cmds. revert g. induction cmds as [|c cmds IH]; intros g; simpl.
  - split; [intros x Hx; exact Hx|lia].
  - rewrite bind_fst. destruct (IH (fst (game_step g c))) as [Hi Hl].
    destruct (game_step_fst_players g c) as [E|[v E]]; rewrite E in Hi, Hl.
    + split; assumption.
    + split; [intros x Hx; apply (remove_at_incl _ v), Hi, Hx|].
      pose proof (remove_at_length_le g.(players) v). lia.
Qed.

(** Two phases of the same stage: both [Init], both [End], or Day (or
    Night) with the same number. *)
Definition same_stage (p q : Phase.t) : bool :=
  match p, q with
  | Phase.Init, Phase.Init | Phase.End _, Phase.End _ => true
  | Phase.Day n _, Phase.Day m _ | Phase.Night n _, Phase.Night m _ => Nat.eqb n m
  | _, _ => false
  end.

Lemma game_step_stage g cmd :
  same_stage g.(phase) (fst (game_step g cmd)).(phase) = false ->
  tally_empty (fst (game_step g cmd)).(phase).
Proof.
  destruct g as [ps ph]. unfold game_step. simpl.
  destruct ph as [|n votes|n acts|w]; destruct cmd as [rv rb|ra rt];
    rewrite ?bind_fst; simpl; try discriminate; try (rewrite Nat.eqb_refl; discriminate).
  - destruct (fst (handle_vote ps votes rv rb)) as [votes' [b|]]; simpl;
      [|rewrite Nat.eqb_refl; discriminate].
    rewrite bind_fst, handle_elect_fst. simpl. intros _. apply next_phase_empty.
  - destruct (fst (handle_action ps acts ra rt)) as [acts' [|]]; simpl;
      [|rewrite Nat.eqb_refl; discriminate].
    rewrite bind_fst. destruct (fst (handle_dawn ps acts')) as [acts'' victim]. simpl.
    rewrite bind_fst. intros _.
    destruct victim as [v|]; simpl;
      [rewrite eliminate_eq; simpl; destruct (check_win (remove_at v ps)); simpl|];
      rewrite ?(@bind_fst Phase.t Game); simpl;
      first [apply next_phase_empty | reflexivity].
Qed.

(** X13: the loop keeps the tally of the current phase well formed for
    the current roster: by day one ballot per voter with roster indices, by
    night one entry per player and one for the Mafia with roster indices.
    A step that changes the stage (a new day or night, or the end) starts
    it with an empty tally. *)
Theorem game_keeps_tallies_wf g cmds (Hwf : game_wf g) :
  game_wf (fst (run_steps g cmds))
  /\ (forall g' cmd,
        same_stage g'.(phase) (fst (game_step g' cmd)).(phase) = false ->
        tally_empty (fst (game_step g' cmd)).(phase)).
Proof.
  split; [|exact game_step_stage].
  revert g Hwf. induction cmds as [|c cmds IH]; intros g Hwf; simpl; [exact Hwf|].
  rewrite bind_fst. apply IH, game_step_wf, Hwf.
Qed.

Lemma game_keeps_tallies_wf_witness :
  game_wf (mkGame minimal_roster (Phase.Day 1 []))
  /\ game_wf (fst (run_steps (mkGame minimal_roster (Phase.Day 1 []))
                    [Command.Vote 1 (Some Ballot.Abstain); Command.Vote 2 None])).
Proof.
  assert (H : game_wf (mkGame minimal_roster (Phase.Day 1 []))) by (split; constructor).
  split; [exact H|].
  exact (proj1 (game_keeps_tallies_wf _
                  [Command.Vote 1 (Some Ballot.Abstain); Command.Vote 2 None] H)).
Defined.

(** ** Eliminations remove roster players *)

Lemma handle_vote_elect_in players votes rv rb b :
  snd (fst (handle_vote players votes rv rb)) = Some b ->
  exists v, In (v, b) (fst (fst (handle_vote players votes rv rb))).
Proof.
  destruct (validate_vote players rv rb) as [[voter bo]|] eqn:Hv.
  2:{ unfold handle_vote. rewrite Hv. simpl. discriminate. }
  rewrite (handle_vote_valid _ votes _ _ _ _ Hv).
  destruct (accept_vote votes voter bo) as [votes' former]. simpl.
  rewrite check_elect_eq.
  destruct (last_opt votes') as [[lv lb]|] eqn:L; simpl; [|discriminate].
  destruct (vote_threshold (length players) lb <=? count_ballot votes' lb); [|discriminate].
  intros [= <-]. exists lv. apply last_opt_in, L.
Qed.

Lemma retarget_back l1 l2 y :
  Forall2 retarget l1 l2 -> In y l2 -> exists x, In x l1 /\ retarget x y.
Proof.
  intros H. induction H as [|x z l1 l2 Hxz _ IH]; [intros []|].
  intros [<-|Hy]; [exists x; split; [left|]; auto|].
  destruct (IH Hy) as [x' [Hx' Hr]]. exists x'. split; [right|]; auto.
Qed.

Lemma dawn_victim_in players actions v :
  snd (fst (handle_dawn players actions)) = Some v ->
  exists a, In (a, Target.Player v) actions.
Proof.
  assert (Hr : Forall2 retarget actions (fst (fst (handle_dawn players actions)))).
  { rewrite dawn_actions. eapply retarget_trans; apply for_each_retarget;
      [apply strip_retarget|apply save_retarget]. }
  assert (Hv : snd (fst (handle_dawn players actions)) = Some v ->
               exists a, In (a, Target.Player v) (fst (fst (handle_dawn players actions)))).
  { rewrite handle_dawn_eq.
    destruct (for_each _ strip actions) as [a1 e1].
    destruct (for_each _ save a1) as [a2 e2].
    rewrite kill_stage_eq. simpl.
    destruct (find (fun '(a, _) => Actor.is_mafia a) a2) as [[a [w| |]]|] eqn:F;
      simpl; try discriminate.
    intros [= <-]. exists a. apply find_some in F. apply F. }
  intros H. destruct (Hv H) as [a Ha].
  destruct (retarget_back _ _ _ Hr Ha) as [[a' t'] [Hin [Fa [St|St]]]];
    simpl in Fa, St; [|discriminate].
  subst. exists a'. exact Hin.
Qed.

(** X14: when the tally of the current phase is well formed, a step of the
    loop either keeps the roster or removes one player by an index on the
    roster, so an elimination shrinks the roster by exactly one: the
    player elected by day and the player killed at dawn are always roster
    indices. *)
Theorem elimination_removes_roster_player g cmd (Hwf : game_wf g) :
  (fst (game_step g cmd)).(players) = g.(players)
  \/ exists v, v < length g.(players)
               /\ (fst (game_step g cmd)).(players) = remove_at v g.(players)
               /\ length (fst (game_step g cmd)).(players) = length g.(players) - 1.
Proof.
  destruct g as [ps ph]. unfold game_wf in Hwf. simpl in Hwf |- *.
  unfold game_step. simpl.
  destruct ph as [|n votes|n acts|w]; destruct cmd as [rv rb|ra rt];
    rewrite ?bind_fst; simpl; auto.
  - assert (H := proj1 (handle_vote_tally_wf ps votes rv rb Hwf)). simpl in H.
    assert (He := handle_vote_elect_in ps votes rv rb).
    destruct (fst (handle_vote ps votes rv rb)) as [votes' [b|]]; simpl in H, He |- *; auto.
    rewrite bind_fst, handle_elect_fst. simpl.
    destruct b as [e|]; simpl; auto. right.
    destruct (He _ eq_refl) as [v Hin]. destruct H as [_ Hall].
    rewrite Forall_forall in Hall. destruct (Hall _ Hin) as [_ Hlt].
    exists e. split; [exact Hlt|split; [reflexivity|]].
    rewrite remove_at_length. apply Nat.ltb_lt in Hlt. rewrite Hlt. reflexivity.
  - assert (H := proj1 (handle_action_tally_wf ps acts ra rt Hwf)). simpl in H.
    destruct (fst (handle_action ps acts ra rt)) as [acts' [|]]; simpl in H |- *; auto.
    rewrite bind_fst.
    assert (Hd := dawn_victim_in ps acts').
    destruct (fst (handle_dawn ps acts')) as [acts'' [v|]]; simpl in Hd |- *; auto.
    right. destruct (Hd v eq_refl) as [a Hin]. destruct H as [_ Hall].
    rewrite Forall_forall in Hall. destruct (Hall _ Hin) as [_ Hlt].
    exists v. split; [exact Hlt|].
    rewrite bind_fst, eliminate_eq. simpl.
    destruct (check_win (remove_at v ps)). simpl.
    rewrite (@bind_fst Phase.t Game). simpl.
    split; [reflexivity|].
    rewrite remove_at_length. apply Nat.ltb_lt in Hlt. rewrite Hlt. reflexivity.
Qed.

Lemma elimination_removes_roster_player_witness :
  game_wf (mkGame minimal_roster (Phase.Day 1 [(0, Ballot.Player 2)]))
  /\ ((fst (game_step (mkGame minimal_roster (Phase.Day 1 [(0, Ballot.Player 2)]))
                      (Command.Vote 2 (Some (Ballot.Player 3))))).(players)
      = minimal_roster
      \/ exists v, v < length minimal_roster
         /\ (fst (game_step (mkGame minimal_roster (Phase.Day 1 [(0, Ballot.Player 2)]))
                            (Command.Vote 2 (Some (Ballot.Player 3))))).(players)
            = remove_at v minimal_roster
         /\ length (fst (game_step (mkGame minimal_roster
                                            (Phase.Day 1 [(0, Ballot.Player 2)]))
                                   (Command.Vote 2 (Some (Ballot.Player 3))))).(players)
            = length minimal_roster - 1).
Proof.
  assert (H : game_wf (mkGame minimal_roster (Phase.Day 1 [(0, Ballot.Player 2)]))).
  { split; [repeat constructor; simpl; tauto|repeat constructor; simpl; lia]. }
  split; [exact H|].
  exact (elimination_removes_roster_player _ (Command.Vote 2 (Some (Ballot.Player 3))) H).
Defined.

(** ** Save events at dawn *)

Definition is_save (e : Event.t) : bool :=
  match e with Event.Save => true | _ => false end.

Lemma mafia_slots_map l : mafia_slots l = length (filter Actor.is_mafia (map fst l)).
Proof.
  unfold mafia_slots. induction l as [|[a t] l IH]; simpl; [reflexivity|].
  destruct (Actor.is_mafia a); simpl; rewrite IH; reflexivity.
Qed.

Lemma retarget_map_fst l1 l2 : Forall2 retarget l1 l2 -> map fst l2 = map fst l1.
Proof.
  intros H. induction H as [|x y l1 l2 [Fxy _] _ IH]; simpl; [reflexivity|].
  rewrite Fxy, IH. reflexivity.
Qed.

Lemma save_snd_length actions d : length (snd (save actions d)) = mafia_slots actions.
Proof.
  unfold mafia_slots.
  induction actions as [|[a t] rest IH]; [reflexivity|]. simpl.
  destruct a; rewrite !bind_snd; simpl; rewrite ?bind_snd; simpl;
    rewrite ?app_nil_r; simpl; rewrite IH; reflexivity.
Qed.

Lemma for_each_save_length xs actions :
  length (snd (for_each xs save actions)) = length xs * mafia_slots actions.
Proof.
  revert actions. induction xs as [|[i p] xs IH]; intros actions; [reflexivity|].
  simpl. rewrite bind_snd, length_app, IH, save_snd_length.
  rewrite !mafia_slots_map, (retarget_map_fst _ _ (save_retarget actions i)). lia.
Qed.

Lemma filter_all_false {A} (f : A -> bool) l :
  (forall x, In x l -> f x = false) -> filter f l = [].
Proof.
  induction l as [|x l IH]; simpl; intros H; [reflexivity|].
  rewrite (H x (or_introl eq_refl)). apply IH. auto.
Qed.

Lemma filter_all_true {A} (f : A -> bool) l :
  (forall x, In x l -> f x = true) -> filter f l = l.
Proof.
  induction l as [|x l IH]; simpl; intros H; [reflexivity|].
  rewrite (H x (or_introl eq_refl)), IH; auto.
Qed.

(** X15: each Doctor's protection emits one [Save] event per Mafia entry
    of the tally, whether or not it blocks anything, so dawn emits exactly
    (number of Doctors) x (number of Mafia entries) [Save] events; with no
    Doctor on the roster, or no Mafia entry, it emits none. *)
Theorem dawn_save_events players actions :
  length (filter is_save (snd (handle_dawn players actions)))
  = length (get_players_that players (is_role Role.DOCTOR)) * mafia_slots actions.
Proof.
  rewrite handle_dawn_eq.
  destruct (for_each _ strip actions) as [a1 e1] eqn:E1.
  destruct (for_each _ save a1) as [a2 e2] eqn:E2.
  set (e3 := snd (for_cops (get_players_that players (is_role Role.COP)) players a2)).
  destruct (kill_stage a2) as [v e4] eqn:E4. simpl.
  rewrite !filter_app, !length_app.
  assert (H1 : filter is_save e1 = []).
  { apply filter_all_false. intros e He.
    assert (Hs := for_each_events (fun e => e = Event.Strip)
                    (get_players_that players (is_role Role.STRIPPER)) strip actions
                    (fun a i e => strip_events a i e) e).
    rewrite E1 in Hs. rewrite (Hs He). reflexivity. }
  assert (H2 : filter is_save e2 = e2).
  { apply filter_all_true. intros e He.
    assert (Hs := for_each_events (fun e => e = Event.Save)
                    (get_players_that players (is_role Role.DOCTOR)) save a1
                    (fun a i e => save_events a i e) e).
    rewrite E2 in Hs. rewrite (Hs He). reflexivity. }
  assert (H3 : filter is_save e3 = []).
  { apply filter_all_false. intros e He. apply for_cops_events in He. subst. reflexivity. }
  assert (H4 : filter is_save e4 = []).
  { rewrite kill_stage_eq in E4.
    destruct (find _ a2) as [[a [w| |]]|]; injection E4 as _ <-; reflexivity. }
  rewrite H1, H2, H3, H4. simpl.
  assert (L := for_each_save_length (get_players_that players (is_role Role.DOCTOR)) a1).
  rewrite E2 in L. simpl in L. rewrite L.
  assert (R := for_each_retarget strip (get_players_that players (is_role Role.STRIPPER))
                 actions strip_retarget).
  rewrite E1 in R. simpl in R.
  rewrite !mafia_slots_map, (retarget_map_fst _ _ R). lia.
Qed.

(** ** Strip and Investigate events at dawn *)

Definition is_strip (e : Event.t) : bool :=
  match e with Event.Strip => true | _ => false end.

Definition is_investigate (e : Event.t) : bool :=
  match e with Event.Investigate => true | _ => false end.

(** Number of tally entries submitted under [Actor::Player(i)]. *)
Definition entries_of (actions : Actions) (i : Pidx) : nat :=
  length (filter (fun a => Actor.eqb a (Actor.Player i)) (map fst actions)).

Lemma strip_snd_length actions s : length (snd (strip actions s)) = entries_of actions s.
Proof.
  unfold entries_of.
  induction actions as [|[a t] rest IH]; [reflexivity|]. simpl.
  destruct (Actor.eqb a (Actor.Player s)); rewrite !bind_snd; simpl;
    rewrite ?bind_snd; simpl; rewrite ?app_nil_r; simpl; rewrite IH; reflexivity.
Qed.

Lemma for_each_strip_length xs actions :
  length (snd (for_each xs strip actions))
  = list_sum (map (fun x => entries_of actions (fst x)) xs).
Proof.
  revert actions. induction xs as [|[i p] xs IH]; intros actions; [reflexivity|].
  simpl. rewrite bind_snd, length_app, IH, strip_snd_length.
  unfold entries_of. rewrite (retarget_map_fst _ _ (strip_retarget actions i)). reflexivity.
Qed.

Lemma for_cops_length cops players actions :
  length (snd (for_cops cops players actions))
  = length (filter (fun x =>
                      match option_map snd
                              (find (fun '(a, _) => Actor.is_player a (fst x)) actions) with
                      | Some (Target.Player _) => true
                      | _ => false
                      end) cops).
Proof.
  induction cops as [|[c p] cops IH]; [reflexivity|]. simpl.
  destruct (option_map snd _) as [[q| |]|]; simpl; auto.
  unfold investigate. rewrite bind_snd. simpl. rewrite IH. reflexivity.
Qed.

Lemma dawn_events_split players actions :
  exists e1 e2 e3 e4,
    snd (handle_dawn players actions) = Event.Dawn :: e1 ++ e2 ++ e3 ++ e4
    /\ e1 = snd (for_each (get_players_that players (is_role Role.STRIPPER)) strip actions)
    /\ e2 = snd (for_each (get_players_that players (is_role Role.DOCTOR)) save
                  (fst (for_each (get_players_that players (is_role Role.STRIPPER))
                          strip actions)))
    /\ e3 = snd (for_cops (get_players_that players (is_role Role.COP)) players
                  (fst (fst (handle_dawn players actions))))
    /\ (forall e, In e e4 -> e = Event.Kill).
Proof.
  assert (Ha := dawn_actions players actions).
  rewrite handle_dawn_eq in Ha |- *.
  destruct (for_each _ strip actions) as [a1 e1]. simpl in Ha |- *.
  destruct (for_each _ save a1) as [a2 e2].
  destruct (kill_stage a2) as [v e4] eqn:E4. simpl in Ha |- *.
  exists e1, e2, (snd (for_cops (get_players_that players (is_role Role.COP)) players a2)), e4.
  split; [reflexivity|split; [reflexivity|split; [reflexivity|split; [reflexivity|]]]].
  rewrite kill_stage_eq in E4.
  destruct (find _ a2) as [[a [w| |]]|]; injection E4 as _ <-; simpl; intuition.
Qed.

(** X16: each Stripper emits one [Strip] event per tally entry under its
    own [Actor::Player] index (the entry it blocks), so dawn emits as many
    [Strip] events as there are entries of Stripper-role players. *)
Theorem dawn_strip_events players actions :
  length (filter is_strip (snd (handle_dawn players actions)))
  = list_sum (map (fun x => entries_of actions (fst x))
                  (get_players_that players (is_role Role.STRIPPER))).
Proof.
  destruct (dawn_events_split players actions) as (e1 & e2 & e3 & e4 & -> & E1 & E2 & E3 & H4).
  simpl. rewrite !filter_app, !length_app.
  rewrite (filter_all_true is_strip e1), (filter_all_false is_strip e2),
    (filter_all_false is_strip e3), (filter_all_false is_strip e4).
  - simpl. rewrite E1, for_each_strip_length. lia.
  - intros e He. rewrite (H4 e He). reflexivity.
  - intros e He. rewrite E3 in He. apply for_cops_events in He. subst. reflexivity.
  - intros e He. rewrite E2 in He.
    rewrite (for_each_events (fun e => e = Event.Save) _ save _
               (fun a i e => save_events a i e) e He). reflexivity.
  - intros e He. rewrite E1 in He.
    rewrite (for_each_events (fun e => e = Event.Strip) _ strip _
               (fun a i e => strip_events a i e) e He). reflexivity.
Qed.

(** X17: an investigation happens for exactly the Cops whose own entry in
    the resolved tally (after Strip and Save) targets a player; a stripped
    Cop, whose entry is [Blocked], or a Cop who targeted nobody, gets none.
    The [Investigate] event carries no verdict. *)
Theorem dawn_investigate_events players actions :
  length (filter is_investigate (snd (handle_dawn players actions)))
  = length (filter (fun x =>
                      match option_map snd
                              (find (fun '(a, _) => Actor.is_player a (fst x))
                                    (fst (fst (handle_dawn players actions)))) with
                      | Some (Target.Player _) => true
                      | _ => false
                      end) (get_players_that players (is_role Role.COP))).
Proof.
  destruct (dawn_events_split players actions) as (e1 & e2 & e3 & e4 & -> & E1 & E2 & E3 & H4).
  simpl. rewrite !filter_app, !length_app.
  rewrite (filter_all_false is_investigate e1), (filter_all_false is_investigate e2),
    (filter_all_true is_investigate e3), (filter_all_false is_investigate e4).
  - simpl. rewrite E3, for_cops_length. lia.
  - intros e He. rewrite (H4 e He). reflexivity.
  - intros e He. rewrite E3 in He. apply for_cops_events in He. subst. reflexivity.
  - intros e He. rewrite E2 in He.
    rewrite (for_each_events (fun e => e = Event.Save) _ save _
               (fun a i e => save_events a i e) e He). reflexivity.
  - intros e He. rewrite E1 in He.
    rewrite (for_each_events (fun e => e = Event.Strip) _ strip _
               (fun a i e => strip_events a i e) e He). reflexivity.
Qed.

(** ** Roster changes are announced *)

Definition is_elim (e : Event.t) : bool :=
  match e with Event.Eliminate _ => true | _ => false end.

Lemma handle_vote_no_elim players votes rv rb :
  filter is_elim (snd (handle_vote players votes rv rb)) = [].
Proof.
  destruct (validate_vote players rv rb) as [[voter bo]|] eqn:Hv.
  - rewrite (handle_vote_valid _ votes _ _ _ _ Hv).
    destruct (accept_vote votes voter bo) as [votes' former]. simpl.
    rewrite check_elect_eq. destruct (last_opt votes') as [[lv lb]|]; reflexivity.
  - unfold handle_vote. rewrite Hv. reflexivity.
Qed.

Lemma handle_action_no_elim players actions ra rt :
  filter is_elim (snd (handle_action players actions ra rt)) = [].
Proof.
  apply filter_all_false. intros e He.
  destruct (handle_action_events _ _ _ _ _ He) as [->|(a & t & ->)]; reflexivity.
Qed.

Lemma handle_dawn_no_elim players actions :
  filter is_elim (snd (handle_dawn players actions)) = [].
Proof.
  destruct (dawn_pre_events players actions) as [pre [Hpre ->]].
  apply filter_all_false. intros e [<- | He]; [reflexivity|].
  apply in_app_iff in He. destruct He as [He|He].
  - destruct (Hpre e He) as [-> | [-> | ->]]; reflexivity.
  - rewrite kill_stage_eq in He.
    destruct (find _ _) as [[a [w| |]]|]; simpl in He;
      try destruct He as [<-|[]]; try contradiction; reflexivity.
Qed.

Lemma next_phase_no_elim ps ph : filter is_elim (snd (next_phase ps ph)) = [].
Proof. unfold next_phase, bind. destruct ph; reflexivity. Qed.

Lemma check_win_no_elim ps : filter is_elim (snd (check_win ps)) = [].
Proof.
  unfold check_win, bind.
  destruct (Nat.eqb (n_mafia ps) 0); [reflexivity|].
  destruct (length ps <=? n_mafia ps * 2); reflexivity.
Qed.

Lemma eliminate_elim ps ph v :
  filter is_elim (snd (eliminate ps ph v)) = [Event.Eliminate v].
Proof.
  rewrite eliminate_eq. cbv zeta.
  assert (H := check_win_no_elim (remove_at v ps)).
  destruct (check_win (remove_at v ps)) as [w ew]. simpl in H |- *. rewrite H. reflexivity.
Qed.

Lemma bind_snd_elim {A B} (m : M A) (f : A -> M B) :
  filter is_elim (snd (bind m f)) = filter is_elim (snd m) ++ filter is_elim (snd (f (fst m))).
Proof. rewrite bind_snd, filter_app. reflexivity. Qed.

Lemma handle_elect_elim ps ph b :
  filter is_elim (snd (handle_elect ps ph b))
  = match b with Ballot.Player e => [Event.Eliminate e] | Ballot.Abstain => [] end.
Proof.
  unfold handle_elect, bind. simpl. destruct b as [e|].
  - assert (H := eliminate_elim ps ph e).
    destruct (eliminate ps ph e) as [[ps' ph'] ee]. simpl in H |- *.
    assert (N := next_phase_no_elim ps' ph').
    destruct (next_phase ps' ph') as [ph'' en]. simpl in N |- *.
    rewrite !filter_app, H, N. reflexivity.
  - simpl. assert (N := next_phase_no_elim ps ph).
    destruct (next_phase ps ph) as [ph'' en]. simpl in N |- *.
    rewrite !app_nil_r, N. reflexivity.
Qed.

(** X10: the roster changes only when announced.  A step of the loop
    either keeps the roster and emits no [Eliminate] event, or removes the
    entry at some index [v] and emits exactly one [Eliminate] event, which
    names [v]. *)
Theorem roster_changes_announced g cmd :
  ((fst (game_step g cmd)).(players) = g.(players)
   /\ filter is_elim (snd (game_step g cmd)) = [])
  \/ exists v, (fst (game_step g cmd)).(players) = remove_at v g.(players)
               /\ filter is_elim (snd (game_step g cmd)) = [Event.Eliminate v].
Proof.
  destruct g as [ps ph]. unfold game_step. simpl.
  destruct ph as [|n votes|n acts|w]; destruct cmd as [rv rb|ra rt];
    rewrite ?bind_fst, ?bind_snd_elim; simpl; auto.
  - rewrite handle_vote_no_elim. simpl.
    destruct (fst (handle_vote ps votes rv rb)) as [votes' [b|]]; simpl; auto.
    assert (F := handle_elect_fst ps (Phase.Day n votes') b).
    assert (E := handle_elect_elim ps (Phase.Day n votes') b).
    destruct (handle_elect ps (Phase.Day n votes') b) as [[ps' ph'] ee].
    simpl in F, E. injection F as -> _. unfold bind. simpl. rewrite app_nil_r, E.
    destruct b as [e|]; [right; exists e|left]; split; reflexivity.
  - rewrite handle_action_no_elim. simpl.
    destruct (fst (handle_action ps acts ra rt)) as [acts' [|]]; simpl; auto.
    assert (Hd := handle_dawn_no_elim ps acts').
    destruct (handle_dawn ps acts') as [[acts'' [v|]] ed]; simpl in Hd.
    + assert (He := eliminate_elim ps (Phase.Night n acts'') v).
      assert (F : fst (fst (eliminate ps (Phase.Night n acts'') v)) = remove_at v ps).
      { rewrite eliminate_eq. simpl. destruct (check_win (remove_at v ps)). reflexivity. }
      unfold bind. simpl.
      destruct (eliminate ps (Phase.Night n acts'') v) as [[ps' ph'] ee].
      simpl in He, F. subst ps'.
      assert (N := next_phase_no_elim (remove_at v ps) ph').
      destruct (next_phase (remove_at v ps) ph') as [ph'' en]. simpl in N |- *.
      right. exists v. split; [reflexivity|].
      rewrite app_nil_r, !filter_app, Hd, He, N. reflexivity.
    + unfold bind. simpl. left. split; [reflexivity|].
      rewrite filter_app, Hd. reflexivity.
Qed.
